(** * Movers recommendation API: the handlers over the in-memory store

    A shallow embedding of the Go service (gin handlers over the global
    slice [movers]) and the properties of its rating aggregation, ranking,
    creation and deletion.

    - [float64] values are IEEE 754 binary64 numbers, taken from the
      Standard Library's executable specification ([SpecFloat], precision
      53, [emax] 1024, round to nearest even).  Each arithmetic operator of
      the source is one rounded operation (no fused multiply-add, as on
      amd64).
    - Go's [int] is the 64-bit two's complement integer: a [Z] with its
      wrap-around written out.
    - The global slice [movers] is threaded through the handlers as a list;
      a handler returns the JSON responses it wrote and the new contents
      of the store.  A function that works in place on a slice returns the
      new contents of that slice.
    - The repository holds three variants of the service.  The final one
      (with [sortMoversByRatingAndId], the creation checks and
      [initializeRouter]) is embedded in full; of main.go, the handlers
      that differ or that the properties name are in [MainGo]. *)

From Stdlib Require Import ZArith List Bool String Lia Permutation Sorted.
From Stdlib Require Import Floats.SpecFloat.
Import ListNotations.
Open Scope Z_scope.

(** ** float64 *)

Module Float64.

Definition prec : Z := 53.
Definition emax : Z := 1024.

Definition float64 : Type := spec_float.

(** The values a Go [float64] can hold. *)
Definition is_float64 (x : float64) : Prop := valid_binary prec emax x = true.

(** [float64(n)] for an integer [n]. *)
Definition of_int (n : Z) : float64 := binary_normalize prec emax n 0 false.

Definition mul : float64 -> float64 -> float64 := SFmul prec emax.
Definition add : float64 -> float64 -> float64 := SFadd prec emax.
Definition div : float64 -> float64 -> float64 := SFdiv prec emax.

(** Go's [==], [<], [<=], [>], [>=] on float64. *)
Definition eqb (x y : float64) : bool := SFeqb x y.
Definition ltb (x y : float64) : bool := SFltb x y.
Definition leb (x y : float64) : bool := SFleb x y.
Definition gtb (x y : float64) : bool := SFltb y x.
Definition geb (x y : float64) : bool := SFleb y x.

Definition is_nan (x : float64) : bool :=
  match x with S754_nan => true | _ => false end.

(** A decimal literal [num/den] of the source (4.6 is [46/10]): the
    binary64 number nearest to the quotient, which is what the correctly
    rounded division of the two exactly represented integers gives. *)
Definition literal (num den : Z) : float64 := div (of_int num) (of_int den).

Definition zero : float64 := of_int 0.
Definition one : float64 := of_int 1.
Definition five : float64 := of_int 5.

End Float64.

Import Float64.

(** ** Go's int *)

Definition int_min : Z := - 2 ^ 63.
Definition int_max : Z := 2 ^ 63 - 1.

Definition is_int (n : Z) : Prop := int_min <= n <= int_max.

Definition wrap_int (z : Z) : Z := (z + 2 ^ 63) mod 2 ^ 64 - 2 ^ 63.

Definition int_add (a b : Z) : Z := wrap_int (a + b).

(** ** The mover record

    main.go calls the rating field [Rate]; the final variant calls it
    [Rating].  The field has the same type and uses in both. *)

Record mover : Type := Build_mover {
  ID : Z;
  Name : string;
  Rating : float64;
  TelephoneNumber : string;
  JobsAmount : Z
}.

Definition set_Rating (m : mover) (r : float64) : mover :=
  Build_mover (ID m) (Name m) r (TelephoneNumber m) (JobsAmount m).

Definition set_JobsAmount (m : mover) (n : Z) : mover :=
  Build_mover (ID m) (Name m) (Rating m) (TelephoneNumber m) n.

(** The zero value of the struct ([var newMover mover], [make]). *)
Definition zero_mover : mover := Build_mover 0 "" (S754_zero false) "" 0.

(** ** Requests and responses

    The gin context, as far as the handlers use it: the result of
    [strconv.Atoi(context.Param("id"))] ([None] when Atoi fails) and the
    result of [context.BindJSON] into a zero-valued mover ([None] when
    the body does not decode). *)

Record Context : Type := Build_Context {
  ParamId : option Z;
  Body : option mover
}.

Inductive payload : Type :=
| JMovers (l : list mover)
| JMover (m : mover)
| JH (key text : string).

(** One call of [context.JSON(status, payload)]: the value handed over,
    before [MarshalJSON] rounds a rating to one decimal for the output
    (encoding/json has no text for NaN and the infinities). *)
Definition response : Type := (Z * payload)%type.

Definition StatusOK : Z := 200.
Definition StatusCreated : Z := 201.
Definition StatusBadRequest : Z := 400.
Definition StatusNotFound : Z := 404.
Definition StatusExpectationFailed : Z := 417.

(** What a handler leaves behind: the responses written, and the store. *)
Definition outcome : Type := (list response * list mover)%type.

(** ** The initial database *)

Definition movers0 : list mover :=
  [ Build_mover 1 "San Francisco MOV" (literal 46 10) "+15615557689" 3780;
    Build_mover 2 "Rapid Movers" (literal 42 10) "+15617384568" 1240;
    Build_mover 3 "Reliable Relocations" (literal 47 10) "+14155538692" 2050;
    Build_mover 4 "City Express Movers" (literal 45 10) "+18025559482" 1870;
    Build_mover 5 "Pro Mover Co." (literal 48 10) "+17024457893" 2500;
    Build_mover 6 "MoveOn Solutions" (literal 44 10) "+19025548765" 1730;
    Build_mover 7 "All Star Moving" (literal 43 10) "+13125587612" 1290;
    Build_mover 8 "Swift Relocation" (literal 46 10) "+12026758741" 3100;
    Build_mover 9 "Speedy Transport" (literal 45 10) "+14027759832" 1980;
    Build_mover 10 "Premier Movers" (literal 47 10) "+15022556478" 2300;
    Build_mover 11 "Ace Relocators" (literal 43 10) "+16024457812" 1670;
    Build_mover 12 "Trusted Movers Co." (literal 46 10) "+17024459874" 2890;
    Build_mover 13 "Urban Move" (literal 45 10) "+18024458736" 3200;
    Build_mover 14 "FastTrack Movers" (literal 47 10) "+13027758495" 2150;
    Build_mover 15 "Metro Moving Solutions" (literal 44 10) "+14028854721" 1390 ].

(** ** Helper functions of the source *)

(** [extractId]: on a conversion error it writes a 400 itself and returns
    the error. *)
Definition extractId (context : Context) : list response * option Z :=
  match ParamId context with
  | None => ([(StatusBadRequest, JH "message" "Conversion error")], None)
  | Some MoverId => ([], Some MoverId)
  end.

(** [findMoverIndexById]: index of the first record with the identifier. *)
Fixpoint findMoverIndexById (id : Z) (movers : list mover) : option nat :=
  match movers with
  | [] => None
  | m :: rest =>
      if ID m =? id then Some O
      else option_map S (findMoverIndexById id rest)
  end.

(** [getMoverById] returns [&movers[i]] for the first match: the pointer
    is the index into the store. *)
Definition getMoverById (id : Z) (movers : list mover) : option nat :=
  findMoverIndexById id movers.

(** Reading and writing through [&movers[i]]; the index comes from the
    lookup, so it is within the store. *)
Definition load (i : nat) (movers : list mover) : mover := nth i movers zero_mover.

Fixpoint store (i : nat) (m : mover) (movers : list mover) : list mover :=
  match movers, i with
  | [], _ => []
  | _ :: rest, O => m :: rest
  | x :: rest, S j => x :: store j m rest
  end.

(** [slices.Delete(slice, index, index+1)], for an index within the
    slice (it comes from the lookup). *)
Definition deleteElement (slice : list mover) (index : nat) : list mover :=
  firstn index slice ++ skipn (S index) slice.

(** The comparison closure handed to [sort.Slice], on the two elements
    at the indices it is called with. *)
Definition less (a b : mover) : bool :=
  if eqb (Rating a) (Rating b) then ID a <? ID b
  else gtb (Rating a) (Rating b).

(** [sort.Slice] permutes the slice in place.  It is the library's
    insertion sort, which is what the library runs on slices of up to 12
    elements: for [i] from 1, the element at [i] is swapped towards the
    front while it is [less] than its left neighbour.  On longer slices
    the library switches to pattern-defeating quicksort, whose result is
    the same whenever [less] orders the elements totally.

    [bubble] works on the sorted prefix in reverse (nearest neighbour
    first). *)
Fixpoint bubble (lt : mover -> mover -> bool) (x : mover) (rev_prefix : list mover)
  : list mover :=
  match rev_prefix with
  | [] => [x]
  | y :: rest => if lt x y then y :: bubble lt x rest else x :: y :: rest
  end.

Fixpoint insertion_loop (lt : mover -> mover -> bool) (rev_prefix todo : list mover)
  : list mover :=
  match todo with
  | [] => rev rev_prefix
  | x :: rest => insertion_loop lt (bubble lt x rev_prefix) rest
  end.

Definition sort_Slice (lt : mover -> mover -> bool) (data : list mover) : list mover :=
  insertion_loop lt [] data.

(** [len], [make([]mover, n)] and [copy(dst, src)] (the new contents of
    [dst]). *)
Definition len (s : list mover) : nat := List.length s.

Definition make (n : nat) : list mover := repeat zero_mover n.

Definition copy (dst src : list mover) : list mover :=
  let n := Nat.min (len dst) (len src) in
  firstn n src ++ skipn n dst.

(** [sortMoversByRatingAndId]: sorts a copy; nothing is written to the
    argument. *)
Definition sortMoversByRatingAndId (movers : list mover) : list mover :=
  let moversCopy := make (len movers) in
  let moversCopy := copy moversCopy movers in
  let moversCopy := sort_Slice less moversCopy in
  moversCopy.

Fixpoint checkMoverExists (newMover : mover) (movers : list mover) : bool :=
  match movers with
  | [] => false
  | existingMover :: rest =>
      if (ID existingMover =? ID newMover) || String.eqb (Name existingMover) (Name newMover)
      then true
      else checkMoverExists newMover rest
  end.

Fixpoint checkMoverTelNumber (newMover : mover) (movers : list mover) : bool :=
  match movers with
  | [] => false
  | existingMover :: rest =>
      if String.eqb (TelephoneNumber existingMover) (TelephoneNumber newMover)
      then true
      else checkMoverTelNumber newMover rest
  end.

(** ** The handlers of the final variant *)

Definition getMovers (context : Context) (movers : list mover) : outcome :=
  if (len movers =? 0)%nat then
    ([(StatusNotFound, JH "error" "movers list is empty")], movers)
  else
    let sortedMovers := sortMoversByRatingAndId movers in
    ([(StatusOK, JMovers sortedMovers)], movers).

Definition addMover (context : Context) (movers : list mover) : outcome :=
  match Body context with
  | None => ([(StatusBadRequest, JH "error" "Invalid JSON")], movers)
  | Some newMover =>
      if checkMoverExists newMover movers then
        ([(StatusNotFound, JH "error" "Mover already exists")], movers)
      else if checkMoverTelNumber newMover movers then
        ([(StatusNotFound, JH "error" "Tel. number is occupied")], movers)
      else
        ([(StatusCreated, JMover newMover)], movers ++ [newMover])
  end.

Definition deleteMover (context : Context) (movers : list mover) : outcome :=
  match extractId context with
  | (written, None) =>
      (written ++ [(StatusNotFound, JH "error" "Extracting ID error")], movers)
  | (written, Some MoverId) =>
      match findMoverIndexById MoverId movers with
      | None => (written ++ [(StatusNotFound, JH "message" "Mover not found")], movers)
      | Some moverIndex =>
          let movers := deleteElement movers moverIndex in
          (written ++ [(StatusOK, JH "message" "Mover deleted successfully")], movers)
      end
  end.

(** The right-hand side of the rating assignment:
    [(existingMover.Rating*float64(totalJobs) + updatedRating.Rating) / (float64(totalJobs) + 1)]. *)
Definition new_rating (rating : float64) (totalJobs : Z) (review : float64) : float64 :=
  div (add (mul rating (of_int totalJobs)) review) (add (of_int totalJobs) one).

Definition recommendMover (context : Context) (movers : list mover) : outcome :=
  match extractId context with
  | (written, None) =>
      (written ++ [(StatusNotFound, JH "error" "Extracting ID error")], movers)
  | (written, Some MoverId) =>
      match getMoverById MoverId movers with
      | None => (written ++ [(StatusNotFound, JH "message" "Mover not found")], movers)
      | Some existingMover =>
          match Body context with
          | None => (written ++ [(StatusBadRequest, JH "error" "Invalid JSON")], movers)
          | Some updatedRating =>
              if geb (Rating updatedRating) zero && leb (Rating updatedRating) five then
                let totalJobs := JobsAmount (load existingMover movers) in
                let movers :=
                  store existingMover
                    (set_Rating (load existingMover movers)
                       (new_rating (Rating (load existingMover movers)) totalJobs
                          (Rating updatedRating)))
                    movers in
                let movers :=
                  store existingMover
                    (set_JobsAmount (load existingMover movers)
                       (int_add (JobsAmount (load existingMover movers)) 1))
                    movers in
                (written ++ [(StatusOK, JMover (load existingMover movers))], movers)
              else
                (written ++ [(StatusExpectationFailed,
                              JH "error" "Provided rate should be in range between 0 and 5")],
                 movers)
          end
      end
  end.

(** [initializeRouter]: the four routes and their handlers. *)
Inductive route : Type :=
| GET_movers
| POST_movers
| DELETE_movers_id
| POST_movers_id_review.

Definition initializeRouter (r : route) : Context -> list mover -> outcome :=
  match r with
  | GET_movers => getMovers
  | POST_movers => addMover
  | DELETE_movers_id => deleteMover
  | POST_movers_id_review => recommendMover
  end.

(** Requests served one after the other, each to completion: the store
    they leave. *)
Fixpoint serve (requests : list (route * Context)) (movers : list mover) : list mover :=
  match requests with
  | [] => movers
  | (r, context) :: rest => serve rest (snd (initializeRouter r context movers))
  end.

(** ** main.go: the earlier variant

    Its [sortMoversByRateAndID] sorts the slice it is given, which is the
    global one; [getMovers] answers 400 on an empty store; [extractId]'s
    error is not followed by a second response.  [addMover] appends without
    any check. *)

Module MainGo.

Definition sortMoversByRateAndID (movers : list mover) : list mover :=
  sort_Slice less movers.

Definition getMovers (context : Context) (movers : list mover) : outcome :=
  if (len movers =? 0)%nat then
    ([(StatusBadRequest, JH "error" "movers list is empty")], movers)
  else
    let movers := sortMoversByRateAndID movers in
    ([(StatusOK, JMovers movers)], movers).

Definition addMover (context : Context) (movers : list mover) : outcome :=
  match Body context with
  | None => ([(StatusBadRequest, JH "error" "Invalid JSON")], movers)
  | Some newMover => ([(StatusCreated, JMover newMover)], movers ++ [newMover])
  end.

Definition recommendMover (context : Context) (movers : list mover) : outcome :=
  match extractId context with
  | (written, None) => (written, movers)
  | (written, Some intId) =>
      match getMoverById intId movers with
      | None => (written ++ [(StatusNotFound, JH "message" "Mover not found")], movers)
      | Some currMover =>
          match Body context with
          | None => (written ++ [(StatusBadRequest, JH "error" "Invalid JSON")], movers)
          | Some updatedMover =>
              if geb (Rating updatedMover) zero && leb (Rating updatedMover) five then
                let totalJobs := JobsAmount (load currMover movers) in
                let movers :=
                  store currMover
                    (set_Rating (load currMover movers)
                       (new_rating (Rating (load currMover movers)) totalJobs
                          (Rating updatedMover)))
                    movers in
                let movers :=
                  store currMover
                    (set_JobsAmount (load currMover movers)
                       (int_add (JobsAmount (load currMover movers)) 1))
                    movers in
                (written ++ [(StatusOK, JMover (load currMover movers))], movers)
              else
                (written ++ [(StatusExpectationFailed,
                              JH "error" "Provided rate should be in range between 0 and 5")],
                 movers)
          end
      end
  end.

End MainGo.

(** ** Notions used in the statements *)

(** The order [sort.Slice] works towards: no later element is [less]
    than an earlier one. *)
Definition in_order (lt : mover -> mover -> bool) (a b : mover) : Prop := lt b a = false.

(** The same for the reversed prefix the insertion sort keeps. *)
Definition rev_order (lt : mover -> mover -> bool) (a b : mover) : Prop := lt a b = false.

Definition no_nan (movers : list mover) : Prop :=
  Forall (fun m => is_nan (Rating m) = false) movers.

(** The sort key of a float64 that is not NaN: class, then exponent,
    then mantissa, the negative numbers mirrored. *)
Definition key (x : float64) : Z * Z * Z :=
  match x with
  | S754_zero _ => (0, 0, 0)
  | S754_infinity false => (2, 0, 0)
  | S754_infinity true => (-2, 0, 0)
  | S754_nan => (3, 0, 0)
  | S754_finite false m e => (1, e, Zpos m)
  | S754_finite true m e => (-1, - e, Zneg m)
  end.

Definition key_lt (k k' : Z * Z * Z) : Prop :=
  let '(a, b, c) := k in
  let '(a', b', c') := k' in
  a < a' \/ (a = a' /\ (b < b' \/ (b = b' /\ c < c'))).

(** ** Notions for the rounding of binary64 operations *)

(** A shifted mantissa is inexact when a nonzero bit went out. *)
Definition inexact (mrs : shr_record) : bool := shr_r mrs || shr_s mrs.

(** [mrs'] is [mrs] shifted right by [j] bits. *)
Definition shifted (j : Z) (mrs mrs' : shr_record) : Prop :=
  shr_m mrs' = shr_m mrs / 2 ^ j /\
  (inexact mrs' = true <-> (shr_m mrs mod 2 ^ j <> 0 \/ inexact mrs = true)).

(** Mantissa and exponent of a binary64 number: at most 53 bits, and
    exactly 53 unless the exponent is the least one. *)
Definition canon (m e : Z) : Prop :=
  0 <= m < 2 ^ 53 /\ -1074 <= e /\ (e = -1074 \/ 2 ^ 52 <= m).

(** The value [m * 2^e] as an integer, on a scale fine enough for every
    product and quotient of two binary64 numbers. *)
Definition scaled (m e : Z) : Z := m * 2 ^ (e + 2200).

(** The float64 values that are finite and not negative, and their
    value on that scale. *)
Definition finite_nonneg (x : float64) : Prop :=
  match x with
  | S754_zero _ => True
  | S754_finite false m e => canon (Zpos m) e /\ e <= 971
  | _ => False
  end.

Definition val (x : float64) : Z :=
  match x with
  | S754_finite _ m e => scaled (Zpos m) e
  | _ => 0
  end.

(** The scaled values of the finite float64 numbers that are not negative. *)
Definition representable (B : Z) : Prop :=
  exists mu eu, canon mu eu /\ eu <= 971 /\ scaled mu eu = B.

(** ** The rest of main.go

    Its two response helpers, its [deleteMover] and the routes [main]
    registers.  [moverNotFoundError] and [BindJsonInvalidJsonError] answer
    for the caller and tell it to return. *)

Module MainGoRoutes.

Definition moverNotFoundError (err : bool) : list response * bool :=
  if err then ([(StatusNotFound, JH "message" "Mover not found")], true)
  else ([], false).

Definition BindJsonInvalidJsonError (context : Context)
  : list response * option mover :=
  match Body context with
  | None => ([(StatusBadRequest, JH "error" "Invalid JSON")], None)
  | Some ourMover => ([], Some ourMover)
  end.

Definition is_err {A : Type} (found : option A) : bool :=
  match found with None => true | Some _ => false end.

Definition deleteMover (context : Context) (movers : list mover) : outcome :=
  match extractId context with
  | (written, None) => (written, movers)
  | (written, Some intId) =>
      let found := findMoverIndexById intId movers in
      match moverNotFoundError (is_err found), found with
      | (written', true), _ => (written ++ written', movers)
      | (written', false), None => (written ++ written', movers)
      | (written', false), Some moverIndex =>
          let movers := deleteElement movers moverIndex in
          (written ++ written' ++ [(StatusOK, JH "message" "Mover deleted successfully")],
           movers)
      end
  end.

Definition router (r : route) : Context -> list mover -> outcome :=
  match r with
  | GET_movers => MainGo.getMovers
  | POST_movers => MainGo.addMover
  | DELETE_movers_id => deleteMover
  | POST_movers_id_review => MainGo.recommendMover
  end.

End MainGoRoutes.

(** ** The first variant (the first program of part_000)

    Its listing tests the global slice against nil, and sorts it in
    place.  A slice is nil or holds elements: [None] is nil.  The
    composite literal the global starts from is not nil, [append] never
    returns nil for one more element, and [slices.Delete] returns a
    shortened view of the slice it is given. *)

Module FirstVariant.

Definition slice : Type := option (list mover).

Definition elems (s : slice) : list mover :=
  match s with
  | None => []
  | Some l => l
  end.

Definition movers_init : slice := Some movers0.

Definition getMovers (context : Context) (movers : slice) : list response * slice :=
  match movers with
  | None => ([(StatusBadRequest, JH "error" "movers list is empty")], movers)
  | Some l =>
      let l := sort_Slice less l in
      ([(StatusOK, JMovers l)], Some l)
  end.

Definition addMover (context : Context) (movers : slice) : list response * slice :=
  match Body context with
  | None => ([(StatusBadRequest, JH "error" "Invalid JSON")], movers)
  | Some newMover =>
      ([(StatusCreated, JMover newMover)], Some (elems movers ++ [newMover]))
  end.

Definition deleteMover (context : Context) (movers : slice) : list response * slice :=
  match ParamId context with
  | None => ([(StatusBadRequest, JH "message" "Conversion error")], movers)
  | Some intId =>
      match findMoverIndexById intId (elems movers) with
      | None => ([(StatusNotFound, JH "message" "Mover not found")], movers)
      | Some moverIndex =>
          ([(StatusOK, JH "message" "Mover deleted successfully")],
           Some (deleteElement (elems movers) moverIndex))
      end
  end.

Definition updateMover (context : Context) (movers : slice) : list response * slice :=
  match ParamId context with
  | None => ([(StatusBadRequest, JH "message" "Conversion error")], movers)
  | Some intId =>
      match getMoverById intId (elems movers) with
      | None => ([(StatusNotFound, JH "message" "Mover not found")], movers)
      | Some currMover =>
          match Body context with
          | None => ([(StatusBadRequest, JH "error" "Invalid JSON")], movers)
          | Some updatedMover =>
              if geb (Rating updatedMover) zero && leb (Rating updatedMover) five then
                let totalJobs := JobsAmount (load currMover (elems movers)) in
                let l :=
                  store currMover
                    (set_Rating (load currMover (elems movers))
                       (new_rating (Rating (load currMover (elems movers))) totalJobs
                          (Rating updatedMover)))
                    (elems movers) in
                let l :=
                  store currMover
                    (set_JobsAmount (load currMover l) (int_add (JobsAmount (load currMover l)) 1))
                    l in
                ([(StatusOK, JMover (load currMover l))], Some l)
              else
                ([(StatusExpectationFailed,
                   JH "error" "Provided rate should be in range between 0 and 5")],
                 movers)
          end
      end
  end.

Definition router (r : route) : Context -> slice -> list response * slice :=
  match r with
  | GET_movers => getMovers
  | POST_movers => addMover
  | DELETE_movers_id => deleteMover
  | POST_movers_id_review => updateMover
  end.

Fixpoint serve (requests : list (route * Context)) (movers : slice) : slice :=
  match requests with
  | [] => movers
  | (r, context) :: rest => serve rest (snd (router r context movers))
  end.

End FirstVariant.

(** ** MarshalJSON

    [math.Round] gives the nearest integer, halves away from zero, and
    keeps the sign of a result that is zero; a number with no fractional
    bit, an infinity and NaN are returned as they are.  For a magnitude
    [m * 2^e] with [e < 0] the nearest integer is the floor of
    [(2 * m + 2^(-e)) / 2^(1 - e)]. *)

Definition Round (x : float64) : float64 :=
  match x with
  | S754_finite s m e =>
      if 0 <=? e then x
      else
        let q := (2 * Zpos m + 2 ^ (- e)) / 2 ^ (1 - e) in
        if q =? 0 then S754_zero s
        else binary_normalize prec emax (cond_Zopp s q) 0 false
  | _ => x
  end.

Definition ten : float64 := of_int 10.

(** The copy of the record that [MarshalJSON] hands to [json.Marshal]:
    the method has a value receiver, so the stored record is not
    touched. *)
Definition MarshalJSON (m : mover) : mover :=
  set_Rating m (div (Round (mul (Rating m) ten)) ten).

(** Reviews of one record, one request each. *)
Definition reviews (id : Z) (vs : list float64) : list (route * Context) :=
  map (fun v => (POST_movers_id_review,
                 Build_Context (Some id) (Some (Build_mover 0 "" v "" 0)))) vs.

(** The float64 values between 0.0 and 5.0. *)
Definition in_range (x : float64) : Prop :=
  is_float64 x /\ leb zero x = true /\ leb x five = true.

(** The float64 values that are numbers: neither an infinity nor NaN. *)
Definition finite (x : float64) : bool :=
  match x with
  | S754_zero _ | S754_finite _ _ _ => true
  | _ => false
  end.

(** A record with a rating within 0.0 and 5.0 and a job count between 0
    and [K]. *)
Definition rated (K : Z) (m : mover) : Prop :=
  in_range (Rating m) /\ 0 <= JobsAmount m <= K.

(** A request as a client that keeps to the documented ranges sends it:
    the rating of a body is a binary64 number, and a record to create is
    [rated J]. *)
Definition sane (J : Z) (request : route * Context) : Prop :=
  match Body (snd request) with
  | None => True
  | Some b =>
      is_float64 (Rating b) /\
      (fst request = POST_movers -> in_range (Rating b) /\ 0 <= JobsAmount b <= J)
  end.

(** ** Example data *)

Definition review (id : Z) (v : float64) : Context :=
  Build_Context (Some id) (Some (Build_mover 0 "" v "" 0)).

Definition example_mover (rating : float64) (jobs : Z) : mover :=
  Build_mover 7 "All Star Moving" rating "+13125587612" jobs.

Definition nan_mover : mover := Build_mover 2 "Rapid Movers" S754_nan "+15617384568" 0.

Definition unranked : list mover :=
  [ Build_mover 1 "San Francisco MOV" (of_int 3) "+15615557689" 10;
    nan_mover;
    Build_mover 3 "Reliable Relocations" (of_int 5) "+14155538692" 10 ].

(** Requests that lead from the initial database to [unranked]: the
    fifteen records are deleted, three are created, the second with a job
    count of -1, and that one is reviewed with 5.0. *)
Definition unranked_requests : list (route * Context) :=
  map (fun id => (DELETE_movers_id, Build_Context (Some (Z.of_nat id)) None)) (seq 1 15)
  ++ [ (POST_movers,
        Build_Context None
          (Some (Build_mover 1 "San Francisco MOV" (of_int 3) "+15615557689" 10)));
       (POST_movers,
        Build_Context None
          (Some (Build_mover 2 "Rapid Movers" (of_int 5) "+15617384568" (-1))));
       (POST_movers,
        Build_Context None
          (Some (Build_mover 3 "Reliable Relocations" (of_int 5) "+14155538692" 10)));
       (POST_movers_id_review, review 2 (of_int 5)) ].

Definition hundred_mover : mover := Build_mover 98 "Hundred Movers" (of_int 100) "+10000000098" 1.

(** A record that is not in the initial database. *)
Definition fresh_mover : mover := Build_mover 16 "Fresh Movers" (of_int 4) "+10000000016" 0.

(** * Properties *)

(** ** Lookup, load and store *)

Lemma findMoverIndexById_Some (id : Z) (movers : list mover) (i : nat) :
  findMoverIndexById id movers = Some i ->
  exists l1 m l2,
    movers = l1 ++ m :: l2 /\ List.length l1 = i /\ ID m = id /\
    Forall (fun x => ID x <> id) l1.
Proof.
  revert i. induction movers as [|x rest IH]; intros i H; simpl in H.
  - discriminate.
  - destruct (ID x =? id) eqn:E.
    + injection H as <-. exists [], x, rest. apply Z.eqb_eq in E. auto.
    + destruct (findMoverIndexById id rest) as [j|]; simpl in H; [|discriminate].
      injection H as <-.
      destruct (IH j eq_refl) as (l1 & m & l2 & -> & Hl & Hm & Hall).
      exists (x :: l1), m, l2. simpl. rewrite Hl.
      apply Z.eqb_neq in E. auto.
Qed.

Lemma findMoverIndexById_first (id : Z) (l1 l2 : list mover) (m : mover) :
  Forall (fun x => ID x <> id) l1 -> ID m = id ->
  findMoverIndexById id (l1 ++ m :: l2) = Some (List.length l1).
Proof.
  intros Hall Hm. induction Hall as [|x l Hx _ IH]; simpl.
  - apply Z.eqb_eq in Hm. now rewrite Hm.
  - apply Z.eqb_neq in Hx. now rewrite Hx, IH.
Qed.

Lemma findMoverIndexById_None (id : Z) (movers : list mover) :
  findMoverIndexById id movers = None <-> Forall (fun x => ID x <> id) movers.
Proof.
  induction movers as [|x rest IH]; simpl.
  - split; auto.
  - destruct (ID x =? id) eqn:E.
    + apply Z.eqb_eq in E. split; [discriminate|].
      intros H. inversion H; subst. contradiction.
    + apply Z.eqb_neq in E. destruct (findMoverIndexById id rest); simpl.
      * split; [discriminate|]. intros H. inversion H; subst.
        destruct IH as [_ IH]. now specialize (IH H3).
      * split; auto. intros _. constructor; auto. now apply IH.
Qed.

Lemma load_middle (l1 l2 : list mover) (m : mover) :
  load (List.length l1) (l1 ++ m :: l2) = m.
Proof. unfold load. induction l1; simpl; auto. Qed.

Lemma store_middle (l1 l2 : list mover) (m m' : mover) :
  store (List.length l1) m' (l1 ++ m :: l2) = l1 ++ m' :: l2.
Proof. induction l1; simpl; auto. now rewrite IHl1. Qed.

Lemma deleteElement_middle (l1 l2 : list mover) (m : mover) :
  deleteElement (l1 ++ m :: l2) (List.length l1) = l1 ++ l2.
Proof.
  unfold deleteElement. induction l1 as [|x l1 IH]; simpl.
  - reflexivity.
  - f_equal. exact IH.
Qed.

Lemma copy_make (movers : list mover) : copy (make (len movers)) movers = movers.
Proof.
  unfold copy, make, len. rewrite repeat_length, Nat.min_id.
  rewrite firstn_all, skipn_all2 by (rewrite repeat_length; lia).
  apply app_nil_r.
Qed.

Lemma wrap_int_id (n : Z) : is_int n -> wrap_int n = n.
Proof.
  unfold is_int, int_min, int_max, wrap_int. intros H.
  rewrite Z.mod_small; lia.
Qed.

(** ** The review handler *)

(** The review handler on a store whose first record with identifier
    [id] is [m]: the four cases of the request. *)
Lemma recommendMover_found (context : Context) (id : Z) (l1 l2 : list mover) (m : mover) :
  ParamId context = Some id ->
  Forall (fun x => ID x <> id) l1 -> ID m = id ->
  recommendMover context (l1 ++ m :: l2) =
    match Body context with
    | None => ([(StatusBadRequest, JH "error" "Invalid JSON")], l1 ++ m :: l2)
    | Some updatedRating =>
        if geb (Rating updatedRating) zero && leb (Rating updatedRating) five then
          let m' :=
            Build_mover (ID m) (Name m)
              (new_rating (Rating m) (JobsAmount m) (Rating updatedRating))
              (TelephoneNumber m) (int_add (JobsAmount m) 1) in
          ([(StatusOK, JMover m')], l1 ++ m' :: l2)
        else
          ([(StatusExpectationFailed,
             JH "error" "Provided rate should be in range between 0 and 5")],
           l1 ++ m :: l2)
    end.
Proof.
  intros Hid Hall Hm. unfold recommendMover, extractId, getMoverById.
  rewrite Hid, (findMoverIndexById_first id l1 l2 m Hall Hm).
  destruct (Body context) as [u|]; [|reflexivity].
  destruct (geb (Rating u) zero && leb (Rating u) five); [|reflexivity].
  cbv zeta. repeat (rewrite ?load_middle, ?store_middle). reflexivity.
Qed.

Lemma MainGo_recommendMover_found (context : Context) (id : Z) (l1 l2 : list mover)
    (m : mover) :
  ParamId context = Some id ->
  Forall (fun x => ID x <> id) l1 -> ID m = id ->
  MainGo.recommendMover context (l1 ++ m :: l2) =
    recommendMover context (l1 ++ m :: l2).
Proof.
  intros Hid Hall Hm.
  unfold MainGo.recommendMover, recommendMover, extractId. rewrite Hid.
  reflexivity.
Qed.

(** ** Comparison of float64 values *)

Lemma compare_cont_swap (p q : positive) :
  PosDef.Pos.compare_cont Eq q p = CompOpp (PosDef.Pos.compare_cont Eq p q).
Proof. symmetry. exact (Pos.compare_cont_antisym p q Eq). Qed.

Lemma SFcompare_swap (x y : float64) :
  SFcompare y x = option_map CompOpp (SFcompare x y).
Proof.
  destruct x as [sx|sx| |sx mx ex], y as [sy|sy| |sy my ey];
    try destruct sx; try destruct sy; simpl; try reflexivity;
    rewrite (Z.compare_antisym ey ex); destruct (ey ?= ex); simpl; try reflexivity;
    rewrite (compare_cont_swap mx my); reflexivity.
Qed.

Lemma ltb_not_geb (x y : float64) : ltb x y = true -> geb x y = false.
Proof.
  unfold ltb, geb, SFltb, SFleb. rewrite (SFcompare_swap x y).
  destruct (SFcompare x y) as [[| |]|]; simpl; congruence.
Qed.

Lemma gtb_not_leb (x y : float64) : gtb x y = true -> leb x y = false.
Proof.
  unfold gtb, leb, SFltb, SFleb. rewrite (SFcompare_swap x y).
  destruct (SFcompare x y) as [[| |]|]; simpl; congruence.
Qed.

(** ** C1 and C2: the rating aggregation *)



(** C2: a review below 0.0 or above 5.0 answers 417 and leaves the store,
    and so the record's rating and job count, as they were; in main.go
    too. *)
Theorem recommendMover_out_of_range
    (context : Context) (id : Z) (l1 l2 : list mover) (m updatedRating : mover) :
  ParamId context = Some id ->
  Body context = Some updatedRating ->
  Forall (fun x => ID x <> id) l1 ->
  ID m = id ->
  ltb (Rating updatedRating) zero = true \/ gtb (Rating updatedRating) five = true ->
  let rejected :=
    ([(StatusExpectationFailed,
       JH "error" "Provided rate should be in range between 0 and 5")],
     l1 ++ m :: l2) in
  recommendMover context (l1 ++ m :: l2) = rejected /\
  MainGo.recommendMover context (l1 ++ m :: l2) = rejected.
Proof.
  intros Hid Hbody Hall Hm Hv rejected.
  assert (E : recommendMover context (l1 ++ m :: l2) = rejected).
  { rewrite (recommendMover_found context id l1 l2 m Hid Hall Hm), Hbody.
    destruct Hv as [Hv|Hv].
    - rewrite (ltb_not_geb _ _ Hv). reflexivity.
    - rewrite (gtb_not_leb _ _ Hv), andb_false_r. reflexivity. }
  split; [exact E|].
  rewrite (MainGo_recommendMover_found context id l1 l2 m Hid Hall Hm). exact E.
Qed.

(** The spec's examples: the reviews 5.1 and -0.1 are rejected. *)
Lemma recommendMover_out_of_range_example :
  recommendMover (review 7 (literal 51 10)) [example_mover (of_int 4) 0]
    = ([(StatusExpectationFailed,
         JH "error" "Provided rate should be in range between 0 and 5")],
       [example_mover (of_int 4) 0]) /\
  recommendMover (review 7 (literal (-1) 10)) [example_mover (of_int 4) 0]
    = ([(StatusExpectationFailed,
         JH "error" "Provided rate should be in range between 0 and 5")],
       [example_mover (of_int 4) 0]).
Proof.
  split.
  - exact (proj1 (recommendMover_out_of_range (review 7 (literal 51 10)) 7 [] []
                    (example_mover (of_int 4) 0) (Build_mover 0 "" (literal 51 10) "" 0)
                    eq_refl eq_refl (Forall_nil _) eq_refl (or_intror eq_refl))).
  - exact (proj1 (recommendMover_out_of_range (review 7 (literal (-1) 10)) 7 [] []
                    (example_mover (of_int 4) 0) (Build_mover 0 "" (literal (-1) 10) "" 0)
                    eq_refl eq_refl (Forall_nil _) eq_refl (or_introl eq_refl))).
Defined.

(** ** The order of float64 values that are not NaN *)

Ltac key_cases :=
  repeat split; intros H;
  first [ discriminate H
        | reflexivity
        | lia
        | exfalso; lia
        | subst; reflexivity
        | injection H; intros; subst; lia
        | injection H; intros; exfalso; lia ].

Ltac cont_compare mx my F :=
  change (PosDef.Pos.compare_cont Eq mx my) with (Pos.compare mx my);
  first [ rewrite (proj2 (Pos.compare_eq_iff mx my) F)
        | rewrite (proj2 (Pos.compare_lt_iff mx my) F)
        | rewrite (proj2 (Pos.compare_gt_iff mx my) F) ].

Lemma SFcompare_key (x y : float64) :
  is_nan x = false -> is_nan y = false ->
  exists c, SFcompare x y = Some c /\
    (c = Lt <-> key_lt (key x) (key y)) /\
    (c = Eq <-> key x = key y) /\
    (c = Gt <-> key_lt (key y) (key x)).
Proof.
  intros Hx Hy.
  destruct x as [sx|sx| |sx mx ex], y as [sy|sy| |sy my ey]; try discriminate;
    try destruct sx; try destruct sy; simpl;
    try (eexists; split; [reflexivity|]; key_cases);
    (destruct (Z.compare_spec ex ey) as [E|E|E];
     [destruct (Pos.compare_spec mx my) as [F|F|F]; cont_compare mx my F| |];
     simpl; (eexists; split; [reflexivity|]); key_cases).
Qed.

(** ** The insertion sort behind sort.Slice *)

Section InsertionSort.

Variable lt : mover -> mover -> bool.

(** What holds of the source's closure whatever the ratings are. *)
Hypothesis lt_asym : forall a b, lt a b = true -> lt b a = false.

Lemma bubble_perm (x : mover) (p : list mover) : Permutation (bubble lt x p) (x :: p).
Proof.
  induction p as [|y rest IH]; simpl.
  - apply Permutation_refl.
  - destruct (lt x y).
    + apply Permutation_trans with (y :: x :: rest).
      * now apply perm_skip.
      * apply perm_swap.
    + apply Permutation_refl.
Qed.

Lemma insertion_loop_perm (p todo : list mover) :
  Permutation (insertion_loop lt p todo) (rev p ++ todo).
Proof.
  revert p. induction todo as [|x rest IH]; intros p; simpl.
  - rewrite app_nil_r. apply Permutation_refl.
  - eapply Permutation_trans; [apply IH|].
    apply Permutation_trans with (rev (x :: p) ++ rest).
    + apply Permutation_app_tail.
      eapply Permutation_trans; [apply Permutation_sym, Permutation_rev|].
      eapply Permutation_trans; [apply bubble_perm|]. apply Permutation_rev.
    + simpl. rewrite <- app_assoc. apply Permutation_refl.
Qed.

Lemma sort_Slice_perm (data : list mover) : Permutation (sort_Slice lt data) data.
Proof. exact (insertion_loop_perm [] data). Qed.

(** The reversed prefix is kept in order, neighbour by neighbour. *)

Lemma bubble_HdRel (x y : mover) (rest : list mover) :
  lt y x = false -> HdRel (rev_order lt) y rest -> HdRel (rev_order lt) y (bubble lt x rest).
Proof.
  intros Hyx Hd. destruct rest as [|z rest']; simpl.
  - constructor. exact Hyx.
  - destruct (lt x z); constructor.
    + inversion Hd; subst. assumption.
    + exact Hyx.
Qed.

Lemma bubble_Sorted (x : mover) (p : list mover) :
  Sorted (rev_order lt) p -> Sorted (rev_order lt) (bubble lt x p).
Proof.
  induction p as [|y rest IH]; intros Hs; simpl.
  - repeat constructor.
  - inversion Hs as [|? ? Hrest Hd]; subst.
    destruct (lt x y) eqn:E.
    + constructor; [now apply IH|].
      apply bubble_HdRel; [now apply lt_asym | exact Hd].
    + constructor; [exact Hs|]. constructor. exact E.
Qed.

Lemma Sorted_rev_order (p : list mover) :
  Sorted (rev_order lt) p -> Sorted (in_order lt) (rev p).
Proof.
  induction p as [|y rest IH]; intros Hs; simpl.
  - constructor.
  - inversion Hs as [|? ? Hrest Hd]; subst.
    specialize (IH Hrest).
    clear Hs Hrest. revert IH.
    destruct rest as [|z rest']; simpl; intros IH.
    + repeat constructor.
    + inversion Hd; subst.
      assert (G : forall l, Sorted (in_order lt) (l ++ [z]) ->
                            Sorted (in_order lt) ((l ++ [z]) ++ [y])).
      { induction l as [|a l IHl]; simpl; intros Hl.
        - repeat constructor. exact H0.
        - inversion Hl as [|? ? Hl' Hd']; subst.
          constructor; [now apply IHl|].
          destruct l; simpl in *; inversion Hd'; subst; now constructor. }
      now apply G.
Qed.

Lemma insertion_loop_Sorted (p todo : list mover) :
  Sorted (rev_order lt) p -> Sorted (in_order lt) (insertion_loop lt p todo).
Proof.
  revert p. induction todo as [|x rest IH]; intros p Hs; simpl.
  - now apply Sorted_rev_order.
  - apply IH. now apply bubble_Sorted.
Qed.

(** No element of the result is [lt] than its left neighbour. *)
Lemma sort_Slice_Sorted (data : list mover) : Sorted (in_order lt) (sort_Slice lt data).
Proof. apply insertion_loop_Sorted. constructor. Qed.




(** Neighbours in order give all pairs in order where the order is
    transitive on the elements. *)
Lemma Sorted_all_pairs (P : mover -> Prop) (l : list mover) :
  (forall a b c, P a -> P b -> P c ->
                 in_order lt a b -> in_order lt b c -> in_order lt a c) ->
  Forall P l -> Sorted (in_order lt) l -> StronglySorted (in_order lt) l.
Proof.
  intros Htrans. induction l as [|a l IH]; intros HP Hs.
  - constructor.
  - inversion HP as [|? ? Pa Pl]; subst. inversion Hs as [|? ? Hs' Hd]; subst.
    specialize (IH Pl Hs'). constructor; [exact IH|].
    destruct l as [|b l']; [constructor|].
    inversion Hd; subst. inversion IH as [|? ? _ Hb]; subst.
    inversion Pl as [|? ? Pb Pl']; subst.
    constructor; [assumption|].
    rewrite Forall_forall in *. intros c Hc.
    apply (Htrans a b c); auto.
Qed.

Lemma StronglySorted_nth (l : list mover) (i j : nat) (a b : mover) :
  StronglySorted (in_order lt) l ->
  nth_error l i = Some a -> nth_error l j = Some b -> (i < j)%nat ->
  in_order lt a b.
Proof.
  intros Hs. revert i j. induction Hs as [|x l Hs IH Hx]; intros i j Hi Hj Hlt.
  - destruct i; discriminate.
  - destruct j as [|j']; [lia|]. simpl in Hj.
    destruct i as [|i']; simpl in Hi.
    + injection Hi as <-. rewrite Forall_forall in Hx. apply Hx.
      eapply nth_error_In; eauto.
    + apply (IH i' j'); auto. lia.
Qed.

End InsertionSort.

(** ** The comparison closure *)

Lemma eqb_swap (x y : float64) : eqb y x = eqb x y.
Proof.
  unfold eqb, SFeqb. rewrite (SFcompare_swap x y).
  destruct (SFcompare x y) as [[| |]|]; reflexivity.
Qed.

Lemma less_asym (a b : mover) : less a b = true -> less b a = false.
Proof.
  unfold less. rewrite (eqb_swap (Rating a) (Rating b)).
  destruct (eqb (Rating a) (Rating b)).
  - rewrite Z.ltb_lt, Z.ltb_ge. lia.
  - unfold gtb, SFltb. rewrite (SFcompare_swap (Rating b) (Rating a)).
    destruct (SFcompare (Rating b) (Rating a)) as [[| |]|]; simpl; congruence.
Qed.

Lemma less_key (a b : mover) :
  is_nan (Rating a) = false -> is_nan (Rating b) = false ->
  less a b = true <->
  (key (Rating a) = key (Rating b) /\ ID a < ID b) \/ key_lt (key (Rating b)) (key (Rating a)).
Proof.
  intros Ha Hb. unfold less, eqb, gtb, SFeqb, SFltb.
  rewrite (SFcompare_swap (Rating a) (Rating b)).
  destruct (SFcompare_key (Rating a) (Rating b) Ha Hb) as (c & -> & HLt & HEq & HGt).
  assert (Hirr : forall k, ~ key_lt k k).
  { intros [[k1 k2] k3]. unfold key_lt. lia. }
  destruct c; simpl.
  - rewrite Z.ltb_lt. split.
    + intros H. left. split; [now apply HEq | exact H].
    + intros [[_ H]|H]; [exact H|].
      rewrite (proj1 HEq eq_refl) in H. now apply Hirr in H.
  - split; [discriminate|]. intros [[H _]|H].
    + apply HEq in H. discriminate.
    + apply HGt in H. discriminate.
  - split; [|reflexivity]. intros _. right. now apply HGt.
Qed.

Lemma key_order_trans (ka kb kc : Z * Z * Z) (ia ib ic : Z) :
  ~ ((kb = ka /\ ib < ia) \/ key_lt ka kb) ->
  ~ ((kc = kb /\ ic < ib) \/ key_lt kb kc) ->
  ~ ((kc = ka /\ ic < ia) \/ key_lt ka kc).
Proof.
  destruct ka as [[a1 a2] a3], kb as [[b1 b2] b3], kc as [[c1 c2] c3].
  unfold key_lt. rewrite !pair_equal_spec. lia.
Qed.

Lemma in_order_less_trans (a b c : mover) :
  is_nan (Rating a) = false -> is_nan (Rating b) = false -> is_nan (Rating c) = false ->
  in_order less a b -> in_order less b c -> in_order less a c.
Proof.
  unfold in_order. intros Ha Hb Hc Hab Hbc.
  apply not_true_is_false. rewrite (less_key c a Hc Ha).
  apply (key_order_trans _ (key (Rating b)) _ _ (ID b)).
  - rewrite <- (less_key b a Hb Ha). congruence.
  - rewrite <- (less_key c b Hc Hb). congruence.
Qed.

(** ** C3, C9 and C4: ranking *)

Lemma sortMoversByRatingAndId_eq (movers : list mover) :
  sortMoversByRatingAndId movers = sort_Slice less movers.
Proof. unfold sortMoversByRatingAndId. now rewrite copy_make. Qed.

Lemma no_nan_sorted (movers : list mover) :
  no_nan movers -> no_nan (sortMoversByRatingAndId movers).
Proof.
  unfold no_nan. intros H. rewrite sortMoversByRatingAndId_eq.
  eapply Permutation_Forall; [|exact H].
  apply Permutation_sym, sort_Slice_perm.
Qed.

(** The handlers lead from the initial database to a store with a NaN
    rating between two others. *)
Lemma unranked_reachable : serve unranked_requests movers0 = unranked.
Proof. vm_compute. reflexivity. Qed.

(** Against C3 as stated: with a NaN rating between them, the record
    rated 5.0 stays behind the record rated 3.0. *)
Lemma rank_order_fails_with_nan :
  ~ (forall (movers : list mover) (i j : nat) (a b : mover),
       nth_error (sortMoversByRatingAndId movers) i = Some a ->
       nth_error (sortMoversByRatingAndId movers) j = Some b ->
       (gtb (Rating a) (Rating b) = true -> (i < j)%nat) /\
       (eqb (Rating a) (Rating b) = true -> ID a < ID b -> (i < j)%nat)).
Proof.
  intros H.
  destruct (H unranked 2%nat 0%nat _ _ eq_refl eq_refl) as [H1 _].
  specialize (H1 eq_refl). lia.
Qed.

(** C3, amended: when no rating of the collection is NaN, in the result
    of [sortMoversByRatingAndId] a record with a greater rating stands
    before one with a smaller rating, and of two records with equal
    ratings the one with the lower identifier stands first. *)
Theorem rank_order (movers : list mover) (i j : nat) (a b : mover) :
  no_nan movers ->
  nth_error (sortMoversByRatingAndId movers) i = Some a ->
  nth_error (sortMoversByRatingAndId movers) j = Some b ->
  (gtb (Rating a) (Rating b) = true -> (i < j)%nat) /\
  (eqb (Rating a) (Rating b) = true -> ID a < ID b -> (i < j)%nat).
Proof.
  intros Hnan Hi Hj.
  assert (Hless : less a b = true -> (i < j)%nat).
  { intros Hab. destruct (Nat.lt_ge_cases i j) as [|Hge]; [assumption|exfalso].
    destruct (proj1 (Nat.lt_eq_cases j i) Hge) as [Hlt | ->].
    - assert (Hs : StronglySorted (in_order less) (sortMoversByRatingAndId movers)).
      { apply (Sorted_all_pairs less (fun m => is_nan (Rating m) = false)).
        - exact in_order_less_trans.
        - now apply no_nan_sorted.
        - rewrite sortMoversByRatingAndId_eq. apply sort_Slice_Sorted, less_asym. }
      pose proof (StronglySorted_nth less _ j i b a Hs Hj Hi Hlt) as Hba.
      unfold in_order in Hba. congruence.
    - assert (a = b) by congruence. subst b.
      pose proof (less_asym a a Hab). congruence. }
  split.
  - intros Hgt. apply Hless. unfold less.
    destruct (eqb (Rating a) (Rating b)) eqn:E; [|exact Hgt].
    exfalso. revert E Hgt. unfold eqb, gtb, SFeqb, SFltb.
    rewrite (SFcompare_swap (Rating a) (Rating b)).
    destruct (SFcompare (Rating a) (Rating b)) as [[| |]|]; simpl; congruence.
  - intros Heq Hid. apply Hless. unfold less. rewrite Heq. now apply Z.ltb_lt.
Qed.

Lemma rank_order_example :
  let a := Build_mover 5 "Pro Mover Co." (literal 48 10) "+17024457893" 2500 in
  let b := Build_mover 3 "Reliable Relocations" (literal 47 10) "+14155538692" 2050 in
  no_nan movers0 /\
  nth_error (sortMoversByRatingAndId movers0) 0 = Some a /\
  nth_error (sortMoversByRatingAndId movers0) 1 = Some b /\
  (gtb (Rating a) (Rating b) = true -> (0 < 1)%nat) /\
  (eqb (Rating a) (Rating b) = true -> ID a < ID b -> (0 < 1)%nat).
Proof.
  intros a b.
  assert (H : no_nan movers0) by (vm_compute; repeat constructor).
  assert (Ha : nth_error (sortMoversByRatingAndId movers0) 0 = Some a)
    by (vm_compute; reflexivity).
  assert (Hb : nth_error (sortMoversByRatingAndId movers0) 1 = Some b)
    by (vm_compute; reflexivity).
  split; [exact H|]. split; [exact Ha|]. split; [exact Hb|].
  exact (rank_order movers0 0 1 a b H Ha Hb).
Defined.


(** The ranking does not depend on the sorting algorithm: with distinct
    identifiers and no NaN there is one arrangement in order. *)
Lemma key_total (k k' : Z * Z * Z) : key_lt k k' \/ k = k' \/ key_lt k' k.
Proof.
  destruct k as [[a b] c], k' as [[a' b'] c']. unfold key_lt.
  rewrite !pair_equal_spec. lia.
Qed.

Lemma less_total (a b : mover) :
  is_nan (Rating a) = false -> is_nan (Rating b) = false -> ID a <> ID b ->
  less a b = true \/ less b a = true.
Proof.
  intros Ha Hb Hid. rewrite (less_key a b Ha Hb), (less_key b a Hb Ha).
  destruct (key_total (key (Rating a)) (key (Rating b))) as [H|[H|H]].
  - right. now right.
  - destruct (Z.lt_total (ID a) (ID b)) as [L|[L|L]]; [left; left|contradiction|right; left];
      split; auto.
  - left. now right.
Qed.

Lemma NoDup_map_eq (l : list mover) (a b : mover) :
  NoDup (map ID l) -> In a l -> In b l -> ID a = ID b -> a = b.
Proof.
  induction l as [|x l IH]; simpl; intros Hnd Ha Hb E; [contradiction|].
  inversion Hnd as [|? ? Hx Hl]; subst.
  destruct Ha as [<-|Ha], Hb as [<-|Hb]; auto.
  - exfalso. apply Hx. rewrite E. now apply in_map.
  - exfalso. apply Hx. rewrite <- E. now apply in_map.
Qed.

Lemma StronglySorted_unique (R : mover -> mover -> Prop) (l1 l2 : list mover) :
  (forall a b, In a l1 -> In b l1 -> R a b -> R b a -> a = b) ->
  StronglySorted R l1 -> StronglySorted R l2 -> Permutation l1 l2 -> l1 = l2.
Proof.
  revert l2. induction l1 as [|a t1 IH]; intros l2 Hanti H1 H2 Hp.
  - apply Permutation_nil in Hp. now subst.
  - destruct l2 as [|b t2]; [apply Permutation_sym, Permutation_nil in Hp; discriminate|].
    inversion H1 as [|? ? S1 F1]; subst. inversion H2 as [|? ? S2 F2]; subst.
    rewrite Forall_forall in F1, F2.
    assert (E : a = b).
    { assert (Ha : In a (b :: t2)) by (eapply Permutation_in; [exact Hp|now left]).
      assert (Hb : In b (a :: t1))
        by (eapply Permutation_in; [apply Permutation_sym; exact Hp|now left]).
      destruct Ha as [Ha|Ha]; [now symmetry|]. destruct Hb as [Hb|Hb]; [exact Hb|].
      apply Hanti; [now left|now right|now apply F1|now apply F2]. }
    subst b. f_equal. apply IH; auto.
    + intros x y Hx Hy. apply Hanti; now right.
    + now apply Permutation_cons_inv in Hp.
Qed.

Lemma rank_unique (movers out : list mover) :
  no_nan movers -> NoDup (map ID movers) ->
  Permutation out movers -> Sorted (in_order less) out ->
  out = sortMoversByRatingAndId movers.
Proof.
  intros Hnan Hnd Hp Hs.
  assert (Hnan' : no_nan out)
    by (eapply Permutation_Forall; [apply Permutation_sym; exact Hp|exact Hnan]).
  apply (StronglySorted_unique (in_order less)).
  - intros a b Ha Hb Hab Hba. unfold in_order in *.
    apply (NoDup_map_eq movers); auto; try (eapply Permutation_in; eauto).
    destruct (Z.eq_dec (ID a) (ID b)) as [E|E]; [exact E|exfalso].
    unfold no_nan in Hnan'. rewrite Forall_forall in Hnan'.
    destruct (less_total a b (Hnan' a Ha) (Hnan' b Hb) E); congruence.
  - apply (Sorted_all_pairs less (fun m => is_nan (Rating m) = false)); auto.
    exact in_order_less_trans.
  - apply (Sorted_all_pairs less (fun m => is_nan (Rating m) = false)).
    + exact in_order_less_trans.
    + now apply no_nan_sorted.
    + rewrite sortMoversByRatingAndId_eq. apply sort_Slice_Sorted, less_asym.
  - rewrite sortMoversByRatingAndId_eq.
    eapply Permutation_trans; [exact Hp|]. apply Permutation_sym, sort_Slice_perm.
Qed.

(** C4: in the final variant the listing sorts a copy; the store it
    returns is the store it was given, record for record and in the same
    order, while the answer carries the ranked copy. *)
Theorem getMovers_keeps_store (context : Context) (movers : list mover) :
  snd (getMovers context movers) = movers /\
  copy (make (len movers)) movers = movers /\
  (movers = [] \/
   fst (getMovers context movers) = [(StatusOK, JMovers (sort_Slice less movers))]).
Proof.
  split; [|split].
  - unfold getMovers. destruct (len movers =? 0)%nat; reflexivity.
  - apply copy_make.
  - destruct movers as [|m rest]; [now left|right].
    unfold getMovers. simpl (len (m :: rest) =? 0)%nat. cbv iota zeta.
    now rewrite sortMoversByRatingAndId_eq.
Qed.

(** In main.go the listing sorts the global slice itself, so the store
    is left ranked; the final variant's listing leaves the store as it
    was. *)
Lemma MainGo_getMovers_reorders_store :
  snd (MainGo.getMovers (Build_Context None None) movers0) <> movers0 /\
  snd (getMovers (Build_Context None None) movers0) = movers0.
Proof.
  split; [|reflexivity].
  intros H. apply (f_equal (fun l => option_map ID (hd_error l))) in H.
  vm_compute in H. discriminate.
Qed.

(** ** C8: listing an empty store *)

Lemma sort_Slice_nonempty (data : list mover) :
  data <> [] -> sort_Slice less data <> [].
Proof.
  intros Hne Hs. pose proof (sort_Slice_perm less data) as Hp.
  rewrite Hs in Hp. apply Permutation_nil in Hp. contradiction.
Qed.

(** C8: on the empty store the listing answers with an error (404 in
    the final variant, 400 in main.go) and nothing else; whatever the
    store, a list answered with 200 is never empty. *)
Theorem getMovers_empty_is_error (context : Context) :
  getMovers context [] = ([(StatusNotFound, JH "error" "movers list is empty")], []) /\
  MainGo.getMovers context [] = ([(StatusBadRequest, JH "error" "movers list is empty")], []) /\
  (forall movers status l,
      In (status, JMovers l) (fst (getMovers context movers)) \/
      In (status, JMovers l) (fst (MainGo.getMovers context movers)) ->
      status = StatusOK /\ l <> []).
Proof.
  split; [reflexivity|]. split; [reflexivity|].
  intros movers status l. destruct movers as [|m rest].
  - simpl. intros [[H|[]]|[H|[]]]; discriminate H.
  - unfold getMovers, MainGo.getMovers, MainGo.sortMoversByRateAndID.
    simpl (len (m :: rest) =? 0)%nat. cbv iota zeta.
    rewrite sortMoversByRatingAndId_eq. simpl.
    intros [[H|[]]|[H|[]]]; injection H as <- <-;
      (split; [reflexivity | now apply sort_Slice_nonempty]).
Qed.

(** ** C6: creation *)

Lemma checkMoverExists_true (newMover : mover) (movers : list mover) :
  checkMoverExists newMover movers = true <->
  Exists (fun e => ID e = ID newMover \/ Name e = Name newMover) movers.
Proof.
  induction movers as [|e rest IH]; simpl.
  - split; [discriminate|]. intros H. inversion H.
  - destruct ((ID e =? ID newMover) || String.eqb (Name e) (Name newMover)) eqn:E.
    + split; [|reflexivity]. intros _. apply Exists_cons_hd.
      apply orb_true_iff in E. destruct E as [E|E].
      * left. now apply Z.eqb_eq.
      * right. now apply String.eqb_eq.
    + rewrite IH. apply orb_false_iff in E. destruct E as [E1 E2].
      apply Z.eqb_neq in E1. apply String.eqb_neq in E2.
      split; [apply Exists_cons_tl|].
      intros H. inversion H; subst; [|assumption]. tauto.
Qed.

Lemma checkMoverTelNumber_true (newMover : mover) (movers : list mover) :
  checkMoverTelNumber newMover movers = true <->
  Exists (fun e => TelephoneNumber e = TelephoneNumber newMover) movers.
Proof.
  induction movers as [|e rest IH]; simpl.
  - split; [discriminate|]. intros H. inversion H.
  - destruct (String.eqb (TelephoneNumber e) (TelephoneNumber newMover)) eqn:E.
    + split; [|reflexivity]. intros _. apply Exists_cons_hd. now apply String.eqb_eq.
    + rewrite IH. apply String.eqb_neq in E.
      split; [apply Exists_cons_tl|].
      intros H. inversion H; subst; [contradiction|assumption].
Qed.

(** C6: a candidate whose identifier or name is that of a stored record
    is refused with "Mover already exists"; otherwise a candidate whose
    telephone number is that of a stored record is refused with "Tel.
    number is occupied"; the store is then unchanged.  Any other candidate
    is appended at the end and answered with 201. *)
Theorem addMover_conflicts (context : Context) (movers : list mover) (newMover : mover) :
  Body context = Some newMover ->
  let same_id_or_name :=
    Exists (fun e => ID e = ID newMover \/ Name e = Name newMover) movers in
  let same_phone :=
    Exists (fun e => TelephoneNumber e = TelephoneNumber newMover) movers in
  (same_id_or_name ->
   addMover context movers = ([(StatusNotFound, JH "error" "Mover already exists")], movers)) /\
  (~ same_id_or_name -> same_phone ->
   addMover context movers = ([(StatusNotFound, JH "error" "Tel. number is occupied")], movers)) /\
  (~ same_id_or_name -> ~ same_phone ->
   addMover context movers = ([(StatusCreated, JMover newMover)], movers ++ [newMover])).
Proof.
  intros Hbody same_id_or_name same_phone. unfold addMover. rewrite Hbody.
  pose proof (checkMoverExists_true newMover movers) as HE.
  pose proof (checkMoverTelNumber_true newMover movers) as HT.
  fold same_id_or_name in HE. fold same_phone in HT.
  destruct (checkMoverExists newMover movers), (checkMoverTelNumber newMover movers);
    repeat split; intros; try reflexivity;
    try (exfalso; tauto);
    try (assert (true = true) by reflexivity; exfalso; tauto);
    try (assert (false = true -> False) by discriminate; exfalso; tauto).
Qed.

Lemma addMover_conflicts_example :
  let duplicate := Build_mover 1 "New Mover" (of_int 4) "+10000000000" 0 in
  Exists (fun e => ID e = ID duplicate \/ Name e = Name duplicate) movers0 /\
  addMover (Build_Context None (Some duplicate)) movers0
    = ([(StatusNotFound, JH "error" "Mover already exists")], movers0).
Proof.
  intros duplicate.
  assert (H : Exists (fun e => ID e = ID duplicate \/ Name e = Name duplicate) movers0).
  { apply Exists_cons_hd. left. reflexivity. }
  split; [exact H|].
  exact (proj1 (addMover_conflicts (Build_Context None (Some duplicate)) movers0 duplicate
                  eq_refl) H).
Defined.

(** ** C7: deletion *)

(** C7: when some record has the identifier, the first such record is
    removed and the others stay in their order; when none has it, the
    answer is 404 and the store is unchanged. *)
Theorem deleteMover_first_match (context : Context) (id : Z) (movers : list mover) :
  ParamId context = Some id ->
  (Exists (fun x => ID x = id) movers ->
   exists l1 m l2,
     movers = l1 ++ m :: l2 /\ Forall (fun x => ID x <> id) l1 /\ ID m = id /\
     deleteMover context movers
       = ([(StatusOK, JH "message" "Mover deleted successfully")], l1 ++ l2)) /\
  (~ Exists (fun x => ID x = id) movers ->
   deleteMover context movers = ([(StatusNotFound, JH "message" "Mover not found")], movers)).
Proof.
  intros Hid. unfold deleteMover, extractId. rewrite Hid.
  destruct (findMoverIndexById id movers) as [i|] eqn:E.
  - destruct (findMoverIndexById_Some id movers i E) as (l1 & m & l2 & -> & Hl & Hm & Hall).
    split.
    + intros _. exists l1, m, l2. repeat split; auto.
      subst i. now rewrite deleteElement_middle.
    + intros Hno. exfalso. apply Hno. apply Exists_exists. exists m.
      split; [apply in_elt | exact Hm].
  - apply findMoverIndexById_None in E. split.
    + intros Hex. exfalso. apply Exists_exists in Hex. destruct Hex as (x & Hin & Hx).
      rewrite Forall_forall in E. now apply (E x Hin).
    + intros _. reflexivity.
Qed.

Lemma deleteMover_first_match_example :
  let twins :=
    [ Build_mover 1 "San Francisco MOV" (of_int 4) "+15615557689" 3780;
      Build_mover 2 "Rapid Movers" (of_int 4) "+15617384568" 1240;
      Build_mover 2 "Rapid Movers Ltd" (of_int 3) "+15617384569" 7;
      Build_mover 3 "Reliable Relocations" (of_int 4) "+14155538692" 2050 ] in
  deleteMover (Build_Context (Some 2) None) twins
    = ([(StatusOK, JH "message" "Mover deleted successfully")],
       [ Build_mover 1 "San Francisco MOV" (of_int 4) "+15615557689" 3780;
         Build_mover 2 "Rapid Movers Ltd" (of_int 3) "+15617384569" 7;
         Build_mover 3 "Reliable Relocations" (of_int 4) "+14155538692" 2050 ]) /\
  deleteMover (Build_Context (Some 9) None) twins
    = ([(StatusNotFound, JH "message" "Mover not found")], twins).
Proof.
  intros twins. split.
  - reflexivity.
  - apply (proj2 (deleteMover_first_match (Build_Context (Some 9) None) 9 twins eq_refl)).
    intros H. apply Exists_exists in H. destruct H as (x & Hin & Hx).
    simpl in Hin. repeat (destruct Hin as [<-|Hin]; [discriminate Hx|]). exact Hin.
Defined.

(** ** Rounding in binary64

    What the bounds of C5 and C10 need of the Standard Library's
    operations: the result of a rounded operation on numbers that are not
    negative lies on the same side of every binary64 number as the exact
    result.  Values are compared as integers, [scaled] by 2^2200. *)

Lemma fexp_eq (e : Z) : fexp 53 1024 e = Z.max (e - 53) (-1074).
Proof. reflexivity. Qed.

(** The number of binary digits. *)
Lemma digits2_pos_bounds (p : positive) :
  2 ^ (Zpos (digits2_pos p) - 1) <= Zpos p < 2 ^ Zpos (digits2_pos p).
Proof.
  induction p as [p IH|p IH|]; simpl digits2_pos.
  - rewrite Pos2Z.inj_succ.
    replace (Z.succ (Zpos (digits2_pos p)) - 1) with (Z.succ (Zpos (digits2_pos p) - 1))
      by lia.
    rewrite !Z.pow_succ_r by lia. lia.
  - rewrite Pos2Z.inj_succ.
    replace (Z.succ (Zpos (digits2_pos p)) - 1) with (Z.succ (Zpos (digits2_pos p) - 1))
      by lia.
    rewrite !Z.pow_succ_r by lia. lia.
  - simpl. lia.
Qed.

Lemma pow2_pos (n : Z) : 0 <= n -> 0 < 2 ^ n.
Proof. intros. apply Z.pow_pos_nonneg; lia. Qed.

Lemma pow2_le (a b : Z) : 0 <= a <= b -> 2 ^ a <= 2 ^ b.
Proof. intros. apply Z.pow_le_mono_r; lia. Qed.

Lemma pow2_lt_inv (a b : Z) : 0 <= b -> 2 ^ a < 2 ^ b -> a < b.
Proof. intros Hb H. apply (Z.pow_lt_mono_r_iff 2); lia. Qed.

(** One step of the right shift halves the mantissa and remembers
    whether a nonzero bit went out. *)
Lemma shr_1_spec (mrs : shr_record) :
  0 <= shr_m mrs ->
  shr_m (shr_1 mrs) = shr_m mrs / 2 /\
  (inexact (shr_1 mrs) = true <-> (shr_m mrs mod 2 <> 0 \/ inexact mrs = true)).
Proof.
  destruct mrs as [m r s]. unfold inexact. simpl. intros Hm.
  destruct m as [|[p|p|]|p]; try lia; simpl shr_m; simpl shr_r; simpl shr_s.
  - split; [reflexivity|]. simpl. rewrite Z.mod_0_l by lia. tauto.
  - rewrite Pos2Z.inj_xI.
    assert (D : (2 * Zpos p + 1) / 2 = Zpos p)
      by (symmetry; apply (Z.div_unique _ _ _ 1); lia).
    assert (M : (2 * Zpos p + 1) mod 2 = 1)
      by (symmetry; apply (Z.mod_unique _ _ (Zpos p)); lia).
    rewrite D, M. split; [reflexivity|]. simpl. split; auto. intros _. left. lia.
  - rewrite Pos2Z.inj_xO.
    assert (D : (2 * Zpos p) / 2 = Zpos p)
      by (symmetry; apply (Z.div_unique _ _ _ 0); lia).
    assert (M : (2 * Zpos p) mod 2 = 0)
      by (symmetry; apply (Z.mod_unique _ _ (Zpos p)); lia).
    rewrite D, M. split; [reflexivity|]. simpl. tauto.
  - split; [reflexivity|]. simpl. split; auto. intros _. left. discriminate.
Qed.

Lemma shifted_trans (a b : Z) (x y z : shr_record) :
  0 < a -> 0 < b -> 0 <= shr_m x ->
  shifted a x y -> shifted b y z -> shifted (a + b) x z.
Proof.
  intros Ha Hb Hx [Hy1 Hy2] [Hz1 Hz2]. unfold shifted.
  pose proof (pow2_pos a ltac:(lia)) as Pa. pose proof (pow2_pos b ltac:(lia)) as Pb.
  rewrite Z.pow_add_r by lia.
  split.
  - rewrite Hz1, Hy1. rewrite Z.div_div; lia.
  - rewrite Hz2, Hy2, Hy1.
    assert (E : shr_m x mod (2 ^ a * 2 ^ b) = shr_m x mod 2 ^ a + 2 ^ a * ((shr_m x / 2 ^ a) mod 2 ^ b)).
    { rewrite Z.rem_mul_r by lia. reflexivity. }
    rewrite E.
    pose proof (Z.mod_pos_bound (shr_m x) (2 ^ a) Pa).
    pose proof (Z.mod_pos_bound (shr_m x / 2 ^ a) (2 ^ b) Pb).
    split.
    + intros [H1|[H1|H1]]; [left; nia | left; lia | right; exact H1].
    + intros [H1|H1]; [|right; right; exact H1].
      destruct (Z.eq_dec (shr_m x mod 2 ^ a) 0) as [E0|E0]; [left|right; left; exact E0].
      intros E1. apply H1. rewrite E0, E1. lia.
Qed.

(** [k] steps shift by [k] bits. *)
Lemma iter_pos_shifted (k : positive) (mrs : shr_record) :
  0 <= shr_m mrs -> shifted (Zpos k) mrs (iter_pos shr_1 k mrs).
Proof.
  revert mrs. induction k as [k IH|k IH|]; intros mrs Hm; simpl iter_pos.
  - pose proof (shr_1_spec mrs Hm) as H1.
    assert (S1 : shifted 1 mrs (shr_1 mrs)) by (unfold shifted; rewrite Z.pow_1_r; exact H1).
    assert (M1 : 0 <= shr_m (shr_1 mrs)).
    { destruct H1 as [-> _]. apply Z.div_pos; lia. }
    pose proof (IH _ M1) as S2.
    assert (M2 : 0 <= shr_m (iter_pos shr_1 k (shr_1 mrs))).
    { destruct S2 as [-> _]. apply Z.div_pos; [lia|]. apply pow2_pos. lia. }
    pose proof (IH _ M2) as S3.
    replace (Zpos k~1) with (1 + Zpos k + Zpos k) by lia.
    eapply shifted_trans; [| |exact Hm| |exact S3]; try lia.
    eapply shifted_trans; [| |exact Hm|exact S1|exact S2]; lia.
  - pose proof (IH _ Hm) as S2.
    assert (M2 : 0 <= shr_m (iter_pos shr_1 k mrs)).
    { destruct S2 as [-> _]. apply Z.div_pos; [lia|]. apply pow2_pos. lia. }
    pose proof (IH _ M2) as S3.
    replace (Zpos k~0) with (Zpos k + Zpos k) by lia.
    eapply shifted_trans; [| |exact Hm|exact S2|exact S3]; lia.
  - unfold shifted. rewrite Z.pow_1_r. apply shr_1_spec. exact Hm.
Qed.


Lemma Zdigits2_bounds (m : Z) :
  0 <= m -> 0 <= Zdigits2 m /\ m < 2 ^ Zdigits2 m /\ (0 < m -> 2 ^ (Zdigits2 m - 1) <= m).
Proof.
  destruct m as [|p|p]; try lia; intros _; simpl Zdigits2.
  - simpl. lia.
  - pose proof (digits2_pos_bounds p). lia.
Qed.

Lemma Zdigits2_unique (m j : Z) : 2 ^ (j - 1) <= m < 2 ^ j -> 0 < j -> Zdigits2 m = j.
Proof.
  intros [Hlo Hhi] Hj.
  assert (Hm : 0 < m) by (pose proof (pow2_pos (j - 1)); lia).
  destruct (Zdigits2_bounds m ltac:(lia)) as (Hd0 & Hd1 & Hd2). specialize (Hd2 Hm).
  assert (Hd : 0 < Zdigits2 m).
  { destruct m; simpl in *; lia. }
  assert (j - 1 < Zdigits2 m) by (apply pow2_lt_inv; lia).
  assert (Zdigits2 m - 1 < j) by (apply pow2_lt_inv; lia).
  lia.
Qed.

Lemma inexact_of_loc (m : Z) (l : location) :
  shr_m (shr_record_of_loc m l) = m /\
  (inexact (shr_record_of_loc m l) = true <-> l <> loc_Exact).
Proof.
  destruct l as [|[| |]]; unfold inexact; simpl; split; try reflexivity;
    split; try discriminate; try congruence; auto.
Qed.

(** The first shift of [binary_round_aux]: down to the exponent of the
    format. *)
Lemma shr_fexp_spec (mx ex : Z) (lx : location) :
  0 <= mx -> ex <= fexp 53 1024 (Zdigits2 mx + ex) ->
  let e1 := fexp 53 1024 (Zdigits2 mx + ex) in
  exists mrs,
    shr_fexp 53 1024 mx ex lx = (mrs, e1) /\
    shr_m mrs = mx / 2 ^ (e1 - ex) /\
    (inexact mrs = true <-> (mx mod 2 ^ (e1 - ex) <> 0 \/ lx <> loc_Exact)).
Proof.
  intros Hm Hk e1. unfold shr_fexp, shr. fold e1.
  destruct (inexact_of_loc mx lx) as [Em Ei].
  destruct (e1 - ex) as [|k|k] eqn:Ek; try lia.
  - exists (shr_record_of_loc mx lx). rewrite Z.pow_0_r, Z.div_1_r, Z.mod_1_r.
    split; [f_equal; lia|]. split; [exact Em|]. rewrite Ei. tauto.
  - exists (iter_pos shr_1 k (shr_record_of_loc mx lx)).
    destruct (iter_pos_shifted k (shr_record_of_loc mx lx)) as [S1 S2]; [lia|].
    split; [f_equal; lia|]. rewrite S1, S2, Em, Ei. tauto.
Qed.

(** The shifted mantissa fits the format. *)
Lemma shifted_canon (mx ex : Z) :
  0 <= mx -> ex <= fexp 53 1024 (Zdigits2 mx + ex) ->
  let e1 := fexp 53 1024 (Zdigits2 mx + ex) in
  canon (mx / 2 ^ (e1 - ex)) e1.
Proof.
  intros Hm Hk e1. rewrite fexp_eq in Hk. unfold e1. rewrite fexp_eq.
  destruct (Zdigits2_bounds mx Hm) as (Hd0 & Hd1 & Hd2).
  set (d := Zdigits2 mx) in *. set (e := Z.max (d + ex - 53) (-1074)) in *.
  assert (Hke : 0 <= e - ex) by lia.
  pose proof (pow2_pos (e - ex) Hke) as Pk.
  assert (Hq0 : 0 <= mx / 2 ^ (e - ex)) by (apply Z.div_pos; lia).
  unfold canon. repeat split; try lia.
  - apply Z.div_lt_upper_bound; [lia|].
    destruct (Z.le_gt_cases d 53) as [Hd|Hd].
    + pose proof (pow2_le d 53 ltac:(lia)). nia.
    + assert (2 ^ d = 2 ^ (d - 53) * 2 ^ 53).
      { rewrite <- Z.pow_add_r by lia. f_equal. lia. }
      pose proof (pow2_le (d - 53) (e - ex) ltac:(lia)).
      pose proof (pow2_pos 53 ltac:(lia)). nia.
  - destruct (Z.eq_dec e (-1074)) as [E|E]; [left; exact E|right].
    assert (Ee : e = d + ex - 53) by lia.
    assert (Hpos : 0 < mx).
    { destruct (Z.eq_dec mx 0) as [E0|E0]; [|lia].
      subst mx. unfold d in *. simpl in *. lia. }
    specialize (Hd2 Hpos).
    apply Z.div_le_lower_bound; [lia|].
    replace (e - ex) with (d - 53) by lia.
    rewrite <- Z.pow_add_r by lia. replace (d - 53 + 52) with (d - 1) by lia. exact Hd2.
Qed.

Lemma round_nearest_even_cases (mrs : shr_record) :
  round_nearest_even (shr_m mrs) (loc_of_shr_record mrs) = shr_m mrs \/
  (round_nearest_even (shr_m mrs) (loc_of_shr_record mrs) = shr_m mrs + 1 /\
   inexact mrs = true).
Proof.
  destruct mrs as [m [|] [|]]; unfold inexact; simpl; auto.
  destruct (Z.even m); auto.
Qed.

(** The second, carry, shift of binary_round_aux on a rounded mantissa. *)
Lemma shr_fexp_carry (m2 e1 : Z) :
  -1074 <= e1 -> 0 <= m2 <= 2 ^ 53 -> (e1 = -1074 \/ 2 ^ 52 <= m2) ->
  exists mrs e3,
    shr_fexp 53 1024 m2 e1 loc_Exact = (mrs, e3) /\
    0 <= shr_m mrs /\ e1 <= e3 /\ canon (shr_m mrs) e3 /\
    (forall c, c <= e1 -> shr_m mrs * 2 ^ (e3 - c) = m2 * 2 ^ (e1 - c)).
Proof.
  intros He Hm Hc.
  destruct (Z.eq_dec m2 (2 ^ 53)) as [E|E].
  - subst m2. exists (Build_shr_record (2 ^ 52) false false), (e1 + 1).
    split.
    + unfold shr_fexp. change (Zdigits2 (2 ^ 53)) with 54. rewrite fexp_eq.
      replace (Z.max (54 + e1 - 53) (-1074) - e1) with 1 by lia. reflexivity.
    + simpl shr_m. split; [lia|]. split; [lia|]. split.
      * unfold canon. lia.
      * intros c Hcc. replace (e1 + 1 - c) with (1 + (e1 - c)) by lia.
        rewrite Z.pow_add_r by lia. generalize (2 ^ (e1 - c)). intros P. lia.
  - exists (Build_shr_record m2 false false), e1.
    split.
    + unfold shr_fexp, shr. rewrite fexp_eq.
      destruct (Zdigits2_bounds m2 ltac:(lia)) as (Hd0 & Hd1 & Hd2).
      assert (Hd : Zdigits2 m2 <= 53).
      { destruct (Z.eq_dec m2 0) as [E0|E0]; [subst; simpl; lia|].
        specialize (Hd2 ltac:(lia)).
        assert (Zdigits2 m2 - 1 < 53) by (apply pow2_lt_inv; lia). lia. }
      assert (Hk : Z.max (Zdigits2 m2 + e1 - 53) (-1074) - e1 <= 0) by lia.
      destruct (Z.max (Zdigits2 m2 + e1 - 53) (-1074) - e1); try lia; reflexivity.
    + simpl shr_m. split; [lia|]. split; [lia|]. split; [|reflexivity].
      unfold canon. lia.
Qed.

(** binary_round_aux: floor to the grid of the target exponent, then
    round to nearest even. *)
Lemma binary_round_aux_spec (sx : bool) (mx ex : Z) (lx : location) :
  0 <= mx -> ex <= fexp 53 1024 (Zdigits2 mx + ex) ->
  let e1 := fexp 53 1024 (Zdigits2 mx + ex) in
  let m1 := mx / 2 ^ (e1 - ex) in
  canon m1 e1 /\
  exists m2,
    (m2 = m1 \/ (m2 = m1 + 1 /\ (mx mod 2 ^ (e1 - ex) <> 0 \/ lx <> loc_Exact))) /\
    ((m2 = 0 /\ binary_round_aux 53 1024 sx mx ex lx = S754_zero sx) \/
     (0 < m2 /\ exists m3 e3,
         canon (Zpos m3) e3 /\
         (forall c, c <= e1 -> Zpos m3 * 2 ^ (e3 - c) = m2 * 2 ^ (e1 - c)) /\
         binary_round_aux 53 1024 sx mx ex lx =
           if e3 <=? 971 then S754_finite sx m3 e3 else S754_infinity sx)).
Proof.
  intros Hm Hk e1 m1.
  pose proof (shifted_canon mx ex Hm Hk) as Hc. fold e1 in Hc. fold m1 in Hc.
  split; [exact Hc|].
  destruct (shr_fexp_spec mx ex lx Hm Hk) as (mrs & E1 & Em & Ei). fold e1 in E1, Em, Ei.
  fold m1 in Em.
  unfold binary_round_aux. rewrite E1.
  set (m2 := round_nearest_even (shr_m mrs) (loc_of_shr_record mrs)).
  assert (H2 : m2 = m1 \/ (m2 = m1 + 1 /\ (mx mod 2 ^ (e1 - ex) <> 0 \/ lx <> loc_Exact))).
  { destruct (round_nearest_even_cases mrs) as [R|[R I]]; fold m2 in R; rewrite Em in R.
    - left. exact R.
    - right. split; [exact R|]. now apply Ei. }
  exists m2. split; [exact H2|].
  destruct Hc as (Hc1 & Hc2 & Hc3).
  destruct (shr_fexp_carry m2 e1 Hc2) as (mrs' & e3 & E2 & M0 & Hle & C3 & V3).
  { lia. } { destruct H2 as [->|[-> _]]; lia. }
  rewrite E2.
  destruct (shr_m mrs') as [|m3|m3] eqn:E3; try lia.
  - left. split; [|reflexivity].
    specialize (V3 e1 (Z.le_refl _)). rewrite Z.sub_diag, Z.pow_0_r in V3. lia.
  - right. split.
    + specialize (V3 e1 (Z.le_refl _)). rewrite Z.sub_diag, Z.pow_0_r in V3.
      pose proof (pow2_pos (e3 - e1) ltac:(lia)). nia.
    + exists m3, e3. split; [exact C3|]. split; [exact V3|reflexivity].
Qed.


Lemma scaled_shift (m e k : Z) : 0 <= k -> -2200 <= e -> scaled (m * 2 ^ k) e = scaled m (e + k).
Proof.
  intros Hk He. unfold scaled. replace (e + k + 2200) with (k + (e + 2200)) by lia.
  rewrite (Z.pow_add_r 2 k (e + 2200)) by lia. ring.
Qed.

Lemma scaled_mono (m m' e : Z) : -2200 <= e -> m <= m' -> scaled m e <= scaled m' e.
Proof.
  intros He H. unfold scaled. pose proof (pow2_pos (e + 2200) ltac:(lia)). nia.
Qed.

Lemma scaled_le_inv (m m' e : Z) : -2200 <= e -> scaled m e <= scaled m' e -> m <= m'.
Proof.
  intros He H. unfold scaled in H. pose proof (pow2_pos (e + 2200) ltac:(lia)). nia.
Qed.

Lemma scaled_lt_inv (m m' e : Z) : -2200 <= e -> scaled m e < scaled m' e -> m < m'.
Proof.
  intros He H. unfold scaled in H. pose proof (pow2_pos (e + 2200) ltac:(lia)). nia.
Qed.

(** No binary64 number lies strictly between two neighbours of the grid. *)
Lemma grid_gap (m1 e1 mu eu : Z) :
  canon m1 e1 -> canon mu eu ->
  scaled m1 e1 < scaled mu eu -> scaled (m1 + 1) e1 <= scaled mu eu.
Proof.
  intros (H1 & H2 & H3) (U1 & U2 & U3) Hlt.
  destruct (Z.le_gt_cases e1 eu) as [Hle|Hgt].
  - replace eu with (e1 + (eu - e1)) in * by lia.
    rewrite <- scaled_shift in * by lia.
    apply scaled_mono; [lia|]. apply scaled_lt_inv in Hlt; lia.
  - exfalso. replace e1 with (eu + (e1 - eu)) in Hlt by lia.
    rewrite <- scaled_shift in Hlt by lia.
    apply scaled_lt_inv in Hlt; [|lia].
    pose proof (pow2_le 1 (e1 - eu) ltac:(lia)). rewrite Z.pow_1_r in *. nia.
Qed.

(** Among binary64 numbers the greater exponent has the greater value. *)
Lemma canon_exp_le (m e m' e' : Z) :
  canon m e -> canon m' e' -> 0 < m -> scaled m e <= scaled m' e' -> e <= e'.
Proof.
  intros (H1 & H2 & H3) (U1 & U2 & U3) Hm Hle.
  destruct (Z.le_gt_cases e e') as [|Hgt]; [assumption|exfalso].
  replace e with (e' + (e - e')) in Hle by lia.
  rewrite <- scaled_shift in Hle by lia.
  apply scaled_le_inv in Hle; [|lia].
  pose proof (pow2_le 1 (e - e') ltac:(lia)). rewrite Z.pow_1_r in *. nia.
Qed.

(** The shifted mantissa is the exact value rounded down to the grid. *)
Lemma floor_grid (mx ex e1 : Z) :
  0 <= mx -> -2200 <= ex <= e1 ->
  let m1 := mx / 2 ^ (e1 - ex) in
  scaled m1 e1 <= scaled mx ex < scaled (m1 + 1) e1 /\
  (mx mod 2 ^ (e1 - ex) <> 0 -> scaled m1 e1 < scaled mx ex).
Proof.
  intros Hm He m1.
  pose proof (pow2_pos (e1 - ex) ltac:(lia)) as Pk.
  pose proof (Z.div_mod mx (2 ^ (e1 - ex)) ltac:(lia)) as Hdm.
  pose proof (Z.mod_pos_bound mx (2 ^ (e1 - ex)) Pk) as Hb.
  fold m1 in Hdm.
  replace e1 with (ex + (e1 - ex)) at 1 2 4 by lia.
  rewrite <- !scaled_shift by lia.
  unfold scaled. pose proof (pow2_pos (ex + 2200) ltac:(lia)). 
  split; [split|intros]; nia.
Qed.

Section RoundAux.

Variables (sx : bool) (mx ex : Z) (lx : location).
Hypothesis mx_nonneg : 0 <= mx.
Hypothesis ex_low : -2200 <= ex.
Hypothesis ex_grid : ex <= fexp 53 1024 (Zdigits2 mx + ex).

(** A binary64 number at or above the exact value is at or above the
    rounded one: no overflow, and the rounded value is a binary64 number. *)
Lemma binary_round_aux_upper (mu eu : Z) :
  canon mu eu -> eu <= 971 ->
  scaled mx ex <= scaled mu eu ->
  (lx <> loc_Exact -> scaled mx ex < scaled mu eu) ->
  binary_round_aux 53 1024 sx mx ex lx = S754_zero sx \/
  exists m e,
    binary_round_aux 53 1024 sx mx ex lx = S754_finite sx m e /\
    canon (Zpos m) e /\ scaled (Zpos m) e <= scaled mu eu.
Proof.
  intros Hu Heu Hle Hlt.
  destruct (binary_round_aux_spec sx mx ex lx mx_nonneg ex_grid)
    as (Hc & m2 & H2 & [[_ Hz]|(Hpos & m3 & e3 & C3 & V3 & Hr)]); [left; exact Hz|right].
  set (e1 := fexp 53 1024 (Zdigits2 mx + ex)) in *.
  set (m1 := mx / 2 ^ (e1 - ex)) in *.
  destruct (floor_grid mx ex e1 mx_nonneg ltac:(lia)) as [[F1 F2] F3]. fold m1 in F1, F2, F3.
  assert (Hm2 : scaled m2 e1 <= scaled mu eu).
  { destruct H2 as [->|[-> Hin]]; [lia|].
    apply grid_gap; [exact Hc|exact Hu|].
    destruct Hin as [Hin|Hin]; [specialize (F3 Hin)|specialize (Hlt Hin)]; lia. }
  assert (V : scaled (Zpos m3) e3 = scaled m2 e1).
  { unfold scaled. replace (e3 + 2200) with (e3 - (-2200)) by lia.
    replace (e1 + 2200) with (e1 - (-2200)) by lia. apply V3.
    destruct Hc as (_ & ? & _). lia. }
  exists m3, e3. rewrite Hr.
  assert (e3 <= eu).
  { apply (canon_exp_le (Zpos m3) e3 mu eu); auto; lia. }
  replace (e3 <=? 971) with true by (symmetry; apply Z.leb_le; lia).
  split; [reflexivity|]. split; [exact C3|lia].
Qed.

(** A positive binary64 number at or below the exact value is at or
    below the rounded one. *)
Lemma binary_round_aux_lower (ml el : Z) :
  canon ml el -> 0 < ml ->
  scaled ml el <= scaled mx ex ->
  binary_round_aux 53 1024 sx mx ex lx = S754_infinity sx \/
  exists m e,
    binary_round_aux 53 1024 sx mx ex lx = S754_finite sx m e /\
    canon (Zpos m) e /\ scaled ml el <= scaled (Zpos m) e.
Proof.
  intros Hl Hml Hle.
  destruct (binary_round_aux_spec sx mx ex lx mx_nonneg ex_grid)
    as (Hc & m2 & H2 & Hres).
  set (e1 := fexp 53 1024 (Zdigits2 mx + ex)) in *.
  set (m1 := mx / 2 ^ (e1 - ex)) in *.
  destruct (floor_grid mx ex e1 mx_nonneg ltac:(lia)) as [[F1 F2] F3]. fold m1 in F1, F2, F3.
  assert (Hm1 : scaled ml el <= scaled m1 e1).
  { destruct (Z.le_gt_cases (scaled ml el) (scaled m1 e1)) as [|G]; [assumption|exfalso].
    pose proof (grid_gap m1 e1 ml el Hc Hl G). lia. }
  assert (Hm2 : scaled ml el <= scaled m2 e1).
  { destruct Hc as (_ & ? & _).
    destruct H2 as [->|[-> _]]; [lia|].
    pose proof (scaled_mono m1 (m1 + 1) e1 ltac:(lia) ltac:(lia)). lia. }
  assert (Lpos : 0 < scaled ml el).
  { unfold scaled. destruct Hl as (_ & ? & _).
    pose proof (pow2_pos (el + 2200) ltac:(lia)). nia. }
  destruct Hres as [[Hz _]|(Hpos & m3 & e3 & C3 & V3 & Hr)].
  { exfalso. rewrite Hz in Hm2. unfold scaled in Hm2, Lpos. lia. }
  assert (V : scaled (Zpos m3) e3 = scaled m2 e1).
  { unfold scaled. replace (e3 + 2200) with (e3 - (-2200)) by lia.
    replace (e1 + 2200) with (e1 - (-2200)) by lia. apply V3.
    destruct Hc as (_ & ? & _). lia. }
  rewrite Hr. destruct (e3 <=? 971); [right|left; reflexivity].
  exists m3, e3. split; [reflexivity|]. split; [exact C3|lia].
Qed.

End RoundAux.


(** The mantissa and exponent of a valid float64. *)
Lemma bounded_canon (m : positive) (e : Z) :
  bounded 53 1024 m e = true -> canon (Zpos m) e /\ e <= 971.
Proof.
  unfold bounded, canonical_mantissa. rewrite andb_true_iff, Z.eqb_eq, Z.leb_le, fexp_eq.
  intros [Hc He]. change (1024 - 53) with 971 in He. split; [|exact He].
  pose proof (digits2_pos_bounds m) as [Hlo Hhi].
  set (d := Zpos (digits2_pos m)) in *.
  assert (Hd : d <= 53) by lia.
  pose proof (pow2_le d 53 ltac:(lia)).
  unfold canon. repeat split; try lia.
  destruct (Z.eq_dec e (-1074)) as [E|E]; [left; exact E|right].
  replace d with 53 in Hlo by lia. exact Hlo.
Qed.

Lemma valid_finite_nonneg (x : spec_float) :
  valid_binary 53 1024 x = true -> SFleb (S754_zero false) x = true -> SFleb x (S754_infinity false) = true ->
  x = S754_infinity false \/ finite_nonneg x.
Proof.
  destruct x as [s|[|]| |[|] m e]; simpl; unfold SFleb; simpl; intros Hv H0 H1;
    try discriminate; auto.
  right. now apply bounded_canon.
Qed.

Lemma val_pos (s : bool) (m : positive) (e : Z) :
  -2200 <= e -> 0 < val (S754_finite s m e).
Proof.
  intros He. unfold val, scaled. pose proof (pow2_pos (e + 2200) ltac:(lia)). nia.
Qed.

Lemma val_nonneg (x : spec_float) : finite_nonneg x -> 0 <= val x.
Proof.
  destruct x as [s|s| |[|] m e]; cbn [finite_nonneg val]; try lia; try tauto.
  intros [(_ & He & _) _]. pose proof (val_pos false m e ltac:(lia)) as P.
  cbn [val] in P. lia.
Qed.

Lemma canon_scaled_lt (m e m' e' : Z) :
  canon m e -> canon m' e' -> 0 < m' -> e < e' -> scaled m e < scaled m' e'.
Proof.
  intros (H1 & H2 & H3) (U1 & U2 & U3) Hm Hlt.
  replace e' with (e + (e' - e)) by lia. rewrite <- scaled_shift by lia.
  pose proof (pow2_le 1 (e' - e) ltac:(lia)) as Q. rewrite Z.pow_1_r in Q.
  assert (L : m < m' * 2 ^ (e' - e)) by nia.
  unfold scaled. pose proof (pow2_pos (e + 2200) ltac:(lia)). nia.
Qed.

(** [<=] on finite float64 numbers that are not negative compares the
    values. *)
Lemma SFleb_val (x y : spec_float) :
  finite_nonneg x -> finite_nonneg y -> (SFleb x y = true <-> val x <= val y).
Proof.
  destruct x as [sx|sx| |[|] mx ex], y as [sy|sy| |[|] my ey];
    cbn [finite_nonneg val]; try tauto; unfold SFleb; cbn [SFcompare].
  - intros _ _. split; [lia|reflexivity].
  - intros _ [(_ & He & _) _].
    pose proof (val_pos false my ey ltac:(lia)) as P. cbn [val] in P.
    split; [lia|reflexivity].
  - intros [(_ & He & _) _] _.
    pose proof (val_pos false mx ex ltac:(lia)) as P. cbn [val] in P.
    split; [discriminate|lia].
  - intros [Cx Hx] [Cy Hy].
    destruct (Z.compare_spec ex ey) as [E|E|E].
    + subst ey. change (PosDef.Pos.compare_cont Eq mx my) with (Pos.compare mx my).
      destruct Cx as (_ & He & _).
      destruct (Pos.compare_spec mx my) as [F|F|F].
      * subst. split; [lia|reflexivity].
      * split; [intros _|reflexivity]. apply scaled_mono; lia.
      * split; [discriminate|]. intros H. apply scaled_le_inv in H; lia.
    + pose proof (canon_scaled_lt _ _ _ _ Cx Cy ltac:(lia) E). split; [lia|reflexivity].
    + pose proof (canon_scaled_lt _ _ _ _ Cy Cx ltac:(lia) E). split; [discriminate|lia].
Qed.

Lemma representable_val (x : spec_float) : finite_nonneg x -> representable (val x).
Proof.
  destruct x as [s|s| |[|] m e]; cbn [finite_nonneg val]; try tauto.
  - intros _. exists 0, (-1074). unfold canon, scaled. split; [lia|]. split; [lia|]. lia.
  - intros [C H]. exists (Zpos m), e. auto.
Qed.

(** Every integer below 2^53 is a binary64 number. *)
Lemma representable_int (K : Z) : 0 <= K < 2 ^ 53 -> representable (K * 2 ^ 2200).
Proof.
  intros [H0 H1]. destruct (Z.eq_dec K 0) as [->|Hne].
  - exists 0, (-1074). unfold canon, scaled. lia.
  - destruct (Zdigits2_bounds K H0) as (Hd0 & Hd1 & Hd2). specialize (Hd2 ltac:(lia)).
    set (d := Zdigits2 K) in *.
    assert (Hd : 0 < d) by (unfold d; destruct K; simpl in *; lia).
    assert (Hd53 : d <= 53).
    { assert (d - 1 < 53) by (apply pow2_lt_inv; lia). lia. }
    exists (K * 2 ^ (53 - d)), (d - 53).
    assert (P : 2 ^ 53 = 2 ^ d * 2 ^ (53 - d)).
    { rewrite <- Z.pow_add_r by lia. f_equal. lia. }
    assert (P' : 2 ^ 52 = 2 ^ (d - 1) * 2 ^ (53 - d)).
    { rewrite <- Z.pow_add_r by lia. f_equal. lia. }
    pose proof (pow2_pos (53 - d) ltac:(lia)).
    split; [|split; [lia|]].
    + unfold canon. repeat split; nia.
    + rewrite scaled_shift by lia. unfold scaled. f_equal. f_equal. lia.
Qed.


Lemma pos_iter_xO (m d : positive) : Zpos (Pos.iter xO m d) = Zpos m * 2 ^ Zpos d.
Proof.
  induction d as [|d IH] using Pos.peano_ind.
  - simpl. lia.
  - rewrite Pos.iter_succ, Pos2Z.inj_xO, IH, Pos2Z.inj_succ, Z.pow_succ_r by lia. ring.
Qed.

Lemma shl_align_spec (mx : positive) (ex ex' : Z) :
  exists mz ez,
    shl_align mx ex ex' = (mz, ez) /\ ez = Z.min ex ex' /\
    Zpos mz = Zpos mx * 2 ^ (ex - ez).
Proof.
  unfold shl_align. destruct (ex' - ex) as [|d|d] eqn:E.
  - exists mx, ex. split; [reflexivity|]. split; [lia|].
    rewrite Z.sub_diag. simpl. lia.
  - exists mx, ex. split; [reflexivity|]. split; [lia|].
    rewrite Z.sub_diag. simpl. lia.
  - exists (Pos.iter xO mx d), ex'. split; [reflexivity|]. split; [lia|].
    rewrite pos_iter_xO. f_equal. f_equal. lia.
Qed.

Lemma Zdigits2_shift (m k : Z) : 0 < m -> 0 <= k -> Zdigits2 (m * 2 ^ k) = Zdigits2 m + k.
Proof.
  intros Hm Hk.
  destruct (Zdigits2_bounds m ltac:(lia)) as (Hd0 & Hd1 & Hd2). specialize (Hd2 Hm).
  assert (Hd : 0 < Zdigits2 m) by (destruct m; simpl in *; lia).
  pose proof (pow2_pos k Hk).
  apply Zdigits2_unique; [|lia].
  replace (Zdigits2 m + k - 1) with (Zdigits2 m - 1 + k) by lia.
  rewrite !Z.pow_add_r by lia. nia.
Qed.

(** binary_round first aligns the mantissa on the grid. *)
Lemma binary_round_aligned (sx : bool) (mx : positive) (ex : Z) :
  -2200 <= ex ->
  exists mz ez,
    binary_round 53 1024 sx mx ex = binary_round_aux 53 1024 sx (Zpos mz) ez loc_Exact /\
    -2200 <= ez /\ ez <= fexp 53 1024 (Zdigits2 (Zpos mz) + ez) /\
    scaled (Zpos mz) ez = scaled (Zpos mx) ex.
Proof.
  intros He. unfold binary_round.
  destruct (shl_align_spec mx ex (fexp 53 1024 (Zpos (digits2_pos mx) + ex)))
    as (mz & ez & -> & Ez & Em).
  exists mz, ez. split; [reflexivity|].
  change (Zpos (digits2_pos mx)) with (Zdigits2 (Zpos mx)) in Ez.
  pose proof (fexp_eq (Zdigits2 (Zpos mx) + ex)) as Ef.
  assert (Hlow : -2200 <= ez) by lia.
  split; [exact Hlow|]. split.
  - rewrite Em, Zdigits2_shift by lia.
    replace (Zdigits2 (Zpos mx) + (ex - ez) + ez) with (Zdigits2 (Zpos mx) + ex) by lia. lia.
  - rewrite Em, scaled_shift by lia. f_equal. lia.
Qed.

Lemma binary_round_upper (mx : positive) (ex B : Z) :
  -2200 <= ex -> representable B -> scaled (Zpos mx) ex <= B ->
  finite_nonneg (binary_round 53 1024 false mx ex) /\
  val (binary_round 53 1024 false mx ex) <= B.
Proof.
  intros He (mu & eu & Cu & Hu & <-) Hle.
  destruct (binary_round_aligned false mx ex He) as (mz & ez & -> & Hlow & Hg & Hv).
  rewrite <- Hv in Hle.
  destruct (binary_round_aux_upper false (Zpos mz) ez loc_Exact ltac:(lia) Hlow Hg mu eu Cu Hu Hle)
    as [->|(m & e & -> & Cm & Hm)]; [congruence| |].
  - cbn [finite_nonneg val]. split; [exact I|].
    unfold scaled in *. pose proof (pow2_pos (ez + 2200) ltac:(lia)). nia.
  - cbn [finite_nonneg val]. split; [|exact Hm]. split; [exact Cm|].
    pose proof (canon_exp_le _ _ _ _ Cm Cu ltac:(lia) Hm). lia.
Qed.

Lemma binary_round_lower (mx : positive) (ex B : Z) :
  -2200 <= ex -> representable B -> 0 < B -> B <= scaled (Zpos mx) ex ->
  binary_round 53 1024 false mx ex = S754_infinity false \/
  exists m e, binary_round 53 1024 false mx ex = S754_finite false m e /\
              canon (Zpos m) e /\ B <= scaled (Zpos m) e.
Proof.
  intros He (ml & el & Cl & Hl & <-) Hpos Hle.
  destruct (binary_round_aligned false mx ex He) as (mz & ez & -> & Hlow & Hg & Hv).
  rewrite <- Hv in Hle.
  assert (Hml : 0 < ml).
  { unfold scaled in Hpos. destruct Cl as (? & ? & _).
    pose proof (pow2_pos (el + 2200) ltac:(lia)). nia. }
  exact (binary_round_aux_lower false (Zpos mz) ez loc_Exact ltac:(lia) Hlow Hg ml el Cl Hml Hle).
Qed.

(** float64(n) is exact below 2^53. *)
Lemma of_int_val (n : Z) :
  0 <= n < 2 ^ 53 ->
  finite_nonneg (binary_normalize 53 1024 n 0 false) /\
  val (binary_normalize 53 1024 n 0 false) = n * 2 ^ 2200.
Proof.
  intros [H0 H1]. destruct n as [|p|p]; try lia.
  - simpl. split; [exact I|reflexivity].
  - cbn [binary_normalize].
    assert (R : representable (Zpos p * 2 ^ 2200)) by (apply representable_int; lia).
    assert (S : scaled (Zpos p) 0 = Zpos p * 2 ^ 2200) by reflexivity.
    destruct (binary_round_upper p 0 _ ltac:(lia) R ltac:(lia)) as [Hf Hu].
    destruct (binary_round_lower p 0 _ ltac:(lia) R ltac:(lia) ltac:(lia))
      as [E|(m & e & E & _ & Hl)]; rewrite E in *.
    + contradiction.
    + split; [exact Hf|]. cbn [val] in *. lia.
Qed.


(** The sum of two positive numbers: the mantissas are aligned and
    added exactly, then rounded. *)
Lemma SFadd_finite (mx my : positive) (ex ey : Z) :
  -2200 <= ex -> -2200 <= ey ->
  exists p ez,
    SFadd 53 1024 (S754_finite false mx ex) (S754_finite false my ey)
      = binary_round 53 1024 false p ez /\
    -2200 <= ez /\
    scaled (Zpos p) ez = scaled (Zpos mx) ex + scaled (Zpos my) ey.
Proof.
  intros Hx Hy. cbn [SFadd cond_Zopp].
  set (ez := Z.min ex ey).
  destruct (shl_align_spec mx ex ez) as (ax & ex' & -> & Ex & Ax).
  destruct (shl_align_spec my ey ez) as (ay & ey' & -> & Ey & Ay).
  cbn [fst]. exists (ax + ay)%positive, ez.
  split; [reflexivity|]. split; [lia|].
  rewrite Pos2Z.inj_add, Ax, Ay.
  replace ex' with ez in * by lia. replace ey' with ez in * by lia.
  replace ex with (ez + (ex - ez)) at 2 by lia.
  replace ey with (ez + (ey - ez)) at 2 by lia.
  rewrite <- !scaled_shift by lia. unfold scaled.
  generalize (2 ^ (ez + 2200)). intros a. ring.
Qed.

(** Bounds of the rounded sum, product and quotient. *)
Lemma SFadd_upper (x y : spec_float) (B : Z) :
  finite_nonneg x -> finite_nonneg y -> representable B -> val x + val y <= B ->
  finite_nonneg (SFadd 53 1024 x y) /\ val (SFadd 53 1024 x y) <= B.
Proof.
  intros Hx Hy HB Hle.
  pose proof (val_nonneg x Hx) as Vx. pose proof (val_nonneg y Hy) as Vy.
  destruct x as [sx|sx| |[|] mx ex], y as [sy|sy| |[|] my ey];
    cbn [finite_nonneg] in Hx, Hy; try contradiction.
  - assert (E : SFadd 53 1024 (S754_zero sx) (S754_zero sy) = S754_zero sx \/
                SFadd 53 1024 (S754_zero sx) (S754_zero sy) = S754_zero false)
      by (destruct sx, sy; simpl; auto).
    destruct E as [-> | ->]; cbn [finite_nonneg val] in *; split; auto; lia.
  - cbn [SFadd]. cbn [finite_nonneg val] in *. split; [exact Hy|lia].
  - cbn [SFadd]. cbn [finite_nonneg val] in *. split; [exact Hx|lia].
  - destruct Hx as [(_ & Hex & _) _], Hy as [(_ & Hey & _) _].
    destruct (SFadd_finite mx my ex ey ltac:(lia) ltac:(lia)) as (p & ez & -> & Hez & Hv).
    cbn [val] in Hle. apply binary_round_upper; auto. lia.
Qed.

Lemma SFadd_lower (x y : spec_float) (B : Z) :
  finite_nonneg x -> finite_nonneg y -> representable B -> 0 < B -> B <= val x + val y ->
  SFadd 53 1024 x y = S754_infinity false \/
  exists m e, SFadd 53 1024 x y = S754_finite false m e /\
              canon (Zpos m) e /\ B <= scaled (Zpos m) e.
Proof.
  intros Hx Hy HB Hpos Hle.
  destruct x as [sx|sx| |[|] mx ex], y as [sy|sy| |[|] my ey];
    cbn [finite_nonneg] in Hx, Hy; try contradiction; cbn [val] in Hle; try lia.
  - right. exists my, ey. cbn [SFadd]. split; [reflexivity|]. split; [tauto|lia].
  - right. exists mx, ex. cbn [SFadd]. split; [reflexivity|]. split; [tauto|lia].
  - destruct Hx as [(_ & Hex & _) _], Hy as [(_ & Hey & _) _].
    destruct (SFadd_finite mx my ex ey ltac:(lia) ltac:(lia)) as (p & ez & -> & Hez & Hv).
    apply binary_round_lower; auto. lia.
Qed.

Lemma scaled_mul (mx my : positive) (ex ey : Z) :
  -2200 <= ex -> -2200 <= ey -> -2200 <= ex + ey ->
  scaled (Zpos mx) ex * scaled (Zpos my) ey
  = scaled (Zpos (mx * my)) (ex + ey) * 2 ^ 2200.
Proof.
  intros Hx Hy Hxy. unfold scaled. rewrite Pos2Z.inj_mul.
  assert (P : 2 ^ (ex + ey + 2200) * 2 ^ 2200 = 2 ^ (ex + 2200) * 2 ^ (ey + 2200)).
  { rewrite <- !Z.pow_add_r by lia. f_equal. lia. }
  revert P. generalize (2 ^ (ex + ey + 2200)) (2 ^ 2200) (2 ^ (ex + 2200)) (2 ^ (ey + 2200)).
  intros a b c d P.
  transitivity (Zpos mx * Zpos my * (c * d)); [ring|]. rewrite <- P. ring.
Qed.

Lemma SFmul_upper (x y : spec_float) (B : Z) :
  finite_nonneg x -> finite_nonneg y -> representable B ->
  val x * val y <= B * 2 ^ 2200 ->
  finite_nonneg (SFmul 53 1024 x y) /\ val (SFmul 53 1024 x y) <= B.
Proof.
  intros Hx Hy HB Hle.
  pose proof (pow2_pos 2200 ltac:(lia)) as PT.
  assert (HB0 : 0 <= B).
  { pose proof (val_nonneg x Hx). pose proof (val_nonneg y Hy). nia. }
  destruct x as [sx|sx| |[|] mx ex], y as [sy|sy| |[|] my ey];
    cbn [finite_nonneg] in Hx, Hy; try contradiction;
    try (cbn [SFmul finite_nonneg val]; split; [exact I|exact HB0]).
  destruct Hx as [Cx _], Hy as [Cy _].
  pose proof Cx as (Hmx & Hex & Hnx). pose proof Cy as (Hmy & Hey & Hny).
  destruct HB as (mu & eu & Cu & Hu & <-).
  cbn [SFmul xorb]. cbn [val] in Hle.
  assert (Hg : ex + ey <= fexp 53 1024 (Zdigits2 (Zpos (mx * my)) + (ex + ey))).
  { rewrite fexp_eq.
    destruct (Z.eq_dec ex (-1074)) as [E1|E1]; destruct (Z.eq_dec ey (-1074)) as [E2|E2];
      try lia.
    all: destruct (Zdigits2_bounds (Zpos (mx * my)) ltac:(lia)) as (_ & Hd & _).
    all: pose proof (Pos2Z.is_pos mx); pose proof (Pos2Z.is_pos my).
    all: assert (2 ^ 52 <= Zpos (mx * my))
      by (rewrite Pos2Z.inj_mul;
          destruct Hnx as [?|Hnx]; destruct Hny as [?|Hny]; try lia; nia).
    all: assert (2 ^ 52 < 2 ^ Zdigits2 (Zpos (mx * my))) by lia.
    all: assert (52 < Zdigits2 (Zpos (mx * my)))
      by (apply pow2_lt_inv; [simpl; lia|assumption]).
    all: lia. }
  assert (Hs : scaled (Zpos (mx * my)) (ex + ey) <= scaled mu eu).
  { pose proof (scaled_mul mx my ex ey ltac:(lia) ltac:(lia) ltac:(lia)) as E. nia. }
  destruct (binary_round_aux_upper false (Zpos (mx * my)) (ex + ey) loc_Exact
              ltac:(lia) ltac:(lia) Hg mu eu Cu Hu Hs ltac:(congruence))
    as [->|(m & e & -> & Cm & Hm)].
  - cbn [finite_nonneg val]. split; [exact I|].
    unfold scaled in *. pose proof (pow2_pos (ex + ey + 2200) ltac:(lia)). nia.
  - cbn [finite_nonneg val]. split; [|exact Hm]. split; [exact Cm|].
    pose proof (canon_exp_le _ _ _ _ Cm Cu ltac:(lia) Hm). lia.
Qed.


Lemma new_location_inexact (n r : Z) : new_location n r <> loc_Exact -> r <> 0.
Proof.
  unfold new_location, new_location_even, new_location_odd.
  intros H E. subst r. destruct (Z.even n); simpl in H; congruence.
Qed.

Lemma fexp_mono (a b : Z) : a <= b -> fexp 53 1024 a <= fexp 53 1024 b.
Proof. rewrite !fexp_eq. lia. Qed.

(** The quotient before rounding: the truncated quotient of the
    mantissas, with enough digits for the format. *)
Lemma SFdiv_core_spec (mx my : positive) (ex ey : Z) :
  -1074 <= ex -> -1074 <= ey <= 971 ->
  exists q e' lz s,
    SFdiv_core_binary 53 1024 (Zpos mx) ex (Zpos my) ey = (q, e', lz) /\
    0 <= q /\ -2200 <= e' /\ e' <= fexp 53 1024 (Zdigits2 q + e') /\
    0 <= s /\ s + e' + ey = ex /\
    q * Zpos my <= Zpos mx * 2 ^ s /\
    (lz <> loc_Exact -> q * Zpos my < Zpos mx * 2 ^ s).
Proof.
  intros Hex Hey. unfold SFdiv_core_binary.
  set (d1 := Zdigits2 (Zpos mx)). set (d2 := Zdigits2 (Zpos my)).
  set (e' := Z.min (fexp 53 1024 (d1 + ex - (d2 + ey))) (ex - ey)).
  set (s := ex - ey - e').
  pose proof (fexp_eq (d1 + ex - (d2 + ey))) as Ef.
  assert (Hs : 0 <= s) by (unfold s, e'; lia).
  set (m' := match s with Z0 => Zpos mx | Zpos _ => Z.shiftl (Zpos mx) s | Zneg _ => 0 end).
  assert (Em : m' = Zpos mx * 2 ^ s).
  { unfold m'. destruct s as [|p|p] eqn:E; [rewrite Z.pow_0_r; lia| |lia].
    rewrite Z.shiftl_mul_pow2 by lia. reflexivity. }
  pose proof (Z_div_mod m' (Zpos my) ltac:(lia)) as Hdm.
  destruct (Z.div_eucl m' (Zpos my)) as [q r]. destruct Hdm as [Hdm Hr].
  pose proof (pow2_pos s Hs) as Ps.
  assert (Hq : 0 <= q) by nia.
  exists q, e', (new_location (Zpos my) r), s.
  split; [reflexivity|]. split; [exact Hq|]. split; [unfold e'; lia|].
  split; [|split; [exact Hs|split; [unfold s; lia|split; [nia|]]]].
  - (* the quotient has enough digits *)
    destruct (Zdigits2_bounds (Zpos mx) ltac:(lia)) as (Hd1 & Hx1 & Hx2).
    destruct (Zdigits2_bounds (Zpos my) ltac:(lia)) as (Hd2 & Hy1 & Hy2).
    specialize (Hx2 ltac:(lia)). specialize (Hy2 ltac:(lia)). fold d1 in Hd1, Hx1, Hx2.
    fold d2 in Hd2, Hy1, Hy2.
    assert (D1 : 0 < d1) by (unfold d1; simpl; lia).
    assert (D2 : 0 < d2) by (unfold d2; simpl; lia).
    destruct (Z.le_gt_cases (d1 + s - d2) 0) as [Hsmall|Hbig].
    + (* tiny quotient: the target exponent is the least one *)
      assert (e' <= -1074) by (unfold s in Hsmall; unfold e' in *; lia).
      rewrite fexp_eq. lia.
    + assert (Hq2 : 2 ^ (d1 + s - d2 - 1) <= q).
      { assert (P : 2 ^ (d1 - 1) * 2 ^ s = 2 ^ (d1 + s - d2 - 1) * 2 ^ d2).
        { rewrite <- !Z.pow_add_r by lia. f_equal. lia. }
        pose proof (pow2_pos (d1 + s - d2 - 1) ltac:(lia)).
        destruct (Z.le_gt_cases (2 ^ (d1 + s - d2 - 1)) q) as [|G]; [assumption|exfalso].
        assert (q + 1 <= 2 ^ (d1 + s - d2 - 1)) by lia.
        assert (m' < 2 ^ (d1 + s - d2 - 1) * Zpos my) by nia.
        nia. }
      destruct (Zdigits2_bounds q Hq) as (_ & Hqd & _).
      assert (d1 + s - d2 - 1 < Zdigits2 q).
      { apply pow2_lt_inv; [destruct q; simpl; lia|lia]. }
      apply Z.le_trans with (fexp 53 1024 (d1 + ex - (d2 + ey))); [unfold e'; lia|].
      apply fexp_mono. unfold s in *. lia.
  - intros Hl. apply new_location_inexact in Hl. nia.
Qed.

Lemma SFdiv_upper (x y : spec_float) (B : Z) :
  finite_nonneg x -> finite_nonneg y -> 0 < val y -> representable B ->
  val x * 2 ^ 2200 <= B * val y ->
  finite_nonneg (SFdiv 53 1024 x y) /\ val (SFdiv 53 1024 x y) <= B.
Proof.
  intros Hx Hy Hpos HB Hle.
  pose proof (pow2_pos 2200 ltac:(lia)) as PT.
  assert (HB0 : 0 <= B) by (pose proof (val_nonneg x Hx); nia).
  destruct y as [sy|sy| |[|] my ey]; cbn [finite_nonneg] in Hy; try contradiction;
    [cbn [val] in Hpos; lia|].
  destruct x as [sx|sx| |[|] mx ex]; cbn [finite_nonneg] in Hx; try contradiction.
  { cbn [SFdiv finite_nonneg val]. split; [exact I|exact HB0]. }
  destruct Hx as [Cx Hx], Hy as [Cy Hy].
  pose proof Cx as (Hmx & Hex & _). pose proof Cy as (Hmy & Hey & _).
  destruct HB as (mu & eu & Cu & Hu & <-).
  cbn [SFdiv xorb]. cbn [val] in Hle, Hpos.
  destruct (SFdiv_core_spec mx my ex ey Hex ltac:(lia))
    as (q & e' & lz & s & -> & Hq & He' & Hg & Hs & Hse & Hqle & Hqlt).
  assert (P : 2 ^ s * 2 ^ (e' + 2200) * 2 ^ (ey + 2200) = 2 ^ (ex + 2200) * 2 ^ 2200).
  { rewrite <- !Z.pow_add_r by lia. f_equal. lia. }
  pose proof (pow2_pos s Hs) as Ps.
  pose proof (pow2_pos (e' + 2200) ltac:(lia)) as Pe.
  pose proof (pow2_pos (ey + 2200) ltac:(lia)) as Py.
  pose proof (pow2_pos (ex + 2200) ltac:(lia)) as Px.
  assert (K : scaled q e' * scaled (Zpos my) ey <= scaled mu eu * scaled (Zpos my) ey /\
              (lz <> loc_Exact ->
               scaled q e' * scaled (Zpos my) ey < scaled mu eu * scaled (Zpos my) ey)).
  { unfold scaled in *.
    revert P Ps Pe Py Px Hle Hpos Hqle Hqlt.
    generalize (2 ^ s) (2 ^ (e' + 2200)) (2 ^ (ey + 2200)) (2 ^ (ex + 2200)) (2 ^ 2200)
               (2 ^ (eu + 2200)).
    intros a b c d t u P Ps Pe Py Px Hle Hpos Hqle Hqlt.
    assert (E1 : Zpos mx * d * t = Zpos mx * a * (b * c)).
    { replace (Zpos mx * d * t) with (Zpos mx * (d * t)) by ring. rewrite <- P. ring. }
    assert (E2 : q * b * (Zpos my * c) = q * Zpos my * (b * c)) by ring.
    rewrite E2. rewrite E1 in Hle.
    assert (Pbc : 0 < b * c) by nia.
    split.
    - eapply Z.le_trans; [|exact Hle]. apply Z.mul_le_mono_nonneg_r; lia.
    - intros Hl. specialize (Hqlt Hl).
      eapply Z.lt_le_trans; [|exact Hle]. apply Z.mul_lt_mono_pos_r; lia. }
  destruct K as [K1 K2].
  assert (Hs1 : scaled q e' <= scaled mu eu).
  { apply Z.mul_le_mono_pos_r in K1; [exact K1|exact Hpos]. }
  assert (Hs2 : lz <> loc_Exact -> scaled q e' < scaled mu eu).
  { intros Hl. specialize (K2 Hl). apply Z.mul_lt_mono_pos_r in K2; [exact K2|exact Hpos]. }
  destruct (binary_round_aux_upper false q e' lz Hq He' Hg mu eu Cu Hu Hs1 Hs2)
    as [->|(m & e & -> & Cm & Hm)].
  - cbn [finite_nonneg val]. split; [exact I|].
    assert (0 <= scaled q e') by (unfold scaled; nia). lia.
  - cbn [finite_nonneg val]. split; [|exact Hm]. split; [exact Cm|].
    pose proof (canon_exp_le _ _ _ _ Cm Cu ltac:(lia) Hm). lia.
Qed.

(** ** The rating update in binary64 *)

Lemma canon_bounded (m : positive) (e : Z) :
  canon (Zpos m) e -> e <= 971 -> bounded 53 1024 m e = true.
Proof.
  intros (Hm & He & Hn) H971.
  unfold bounded, canonical_mantissa. rewrite andb_true_iff, Z.eqb_eq, Z.leb_le, fexp_eq.
  change (1024 - 53) with 971. split; [|exact H971].
  change (Zpos (digits2_pos m)) with (Zdigits2 (Zpos m)).
  destruct (Zdigits2_bounds (Zpos m) ltac:(lia)) as (Hd0 & Hd1 & Hd2).
  specialize (Hd2 ltac:(lia)).
  assert (Hd : Zdigits2 (Zpos m) - 1 < 53) by (apply pow2_lt_inv; lia).
  destruct Hn as [Hn|Hn]; [lia|].
  assert (52 < Zdigits2 (Zpos m)) by (apply pow2_lt_inv; [simpl; lia|lia]).
  lia.
Qed.

Lemma finite_nonneg_is_float64 (x : float64) : finite_nonneg x -> is_float64 x.
Proof.
  unfold is_float64. destruct x as [s|s| |[|] m e]; cbn [finite_nonneg valid_binary];
    try tauto. intros [C H]. now apply canon_bounded.
Qed.

Lemma in_range_finite_nonneg (x : float64) :
  is_float64 x -> leb zero x = true -> leb x five = true ->
  finite_nonneg x /\ val x <= 5 * 2 ^ 2200.
Proof.
  intros Hv H0 H5.
  assert (Hx : finite_nonneg x).
  { destruct x as [s|[|]| |[|] m e]; try discriminate; cbn [finite_nonneg]; auto.
    now apply bounded_canon. }
  split; [exact Hx|].
  destruct (of_int_val 5 ltac:(lia)) as [F5 V5].
  unfold leb, five, of_int, prec, emax in H5.
  rewrite (SFleb_val x _ Hx F5), V5 in H5. exact H5.
Qed.

Lemma finite_nonneg_in_range (x : float64) :
  finite_nonneg x -> val x <= 5 * 2 ^ 2200 ->
  leb zero x = true /\ leb x five = true.
Proof.
  intros Hx Hle. split.
  - destruct x as [s|[|]| |[|] m e]; cbn [finite_nonneg] in Hx; try contradiction; reflexivity.
  - destruct (of_int_val 5 ltac:(lia)) as [F5 V5].
    unfold leb, five, of_int, prec, emax.
    rewrite (SFleb_val x _ Hx F5), V5. exact Hle.
Qed.

(** The new rating stays within [0, 5] when the rating and the review
    are within it and five times the divisor is below 2^53, so that the
    bounds of the sums are binary64 numbers. *)
Lemma new_rating_in_range (r v : float64) (n : Z) :
  is_float64 r -> is_float64 v ->
  leb zero r = true -> leb r five = true ->
  leb zero v = true -> leb v five = true ->
  0 <= n -> 5 * (n + 1) < 2 ^ 53 ->
  is_float64 (new_rating r n v) /\
  leb zero (new_rating r n v) = true /\ leb (new_rating r n v) five = true.
Proof.
  intros Vr Vv R0 R5 V0 V5 Hn0 Hn.
  destruct (in_range_finite_nonneg r Vr R0 R5) as [Fr Br].
  destruct (in_range_finite_nonneg v Vv V0 V5) as [Fv Bv].
  unfold new_rating, div, add, mul, one, of_int, prec, emax.
  set (T := 2 ^ 2200) in *.
  assert (PT : 0 < T) by (apply pow2_pos; lia).
  destruct (of_int_val n ltac:(lia)) as [FN VN]. fold T in VN.
  destruct (of_int_val 1 ltac:(lia)) as [F1 V1]. fold T in V1.
  set (N := binary_normalize 53 1024 n 0 false) in *.
  set (I := binary_normalize 53 1024 1 0 false) in *.
  pose proof (val_nonneg r Fr) as Pr. pose proof (val_nonneg v Fv) as Pv.
  (* the product *)
  destruct (SFmul_upper r N (5 * n * T) Fr FN) as [Fp Bp].
  { apply representable_int. lia. }
  { rewrite VN. nia. }
  set (p := SFmul 53 1024 r N) in *.
  (* the numerator *)
  destruct (SFadd_upper p v ((5 * n + 5) * T) Fp Fv) as [Fs Bs].
  { apply representable_int. lia. }
  { lia. }
  set (s := SFadd 53 1024 p v) in *.
  (* the divisor *)
  assert (Rd : representable ((n + 1) * T)) by (apply representable_int; lia).
  destruct (SFadd_upper N I ((n + 1) * T) FN F1 Rd ltac:(lia)) as [Fd Bd].
  destruct (SFadd_lower N I ((n + 1) * T) FN F1 Rd ltac:(lia) ltac:(lia))
    as [E|(md & ed & E & Cd & Ld)].
  { rewrite E in Fd. contradiction. }
  set (d := SFadd 53 1024 N I) in *.
  assert (Vd : (n + 1) * T <= val d) by (rewrite E; exact Ld).
  (* the quotient *)
  destruct (SFdiv_upper s d (5 * T) Fs Fd) as [Fq Bq].
  { lia. }
  { apply representable_int. lia. }
  { pose proof (val_nonneg s Fs). nia. }
  split; [now apply finite_nonneg_is_float64|].
  now apply finite_nonneg_in_range.
Qed.




(** ** C5: the range of the rating *)

(** The store after creation of the record rated 100 (creation checks
    no range), and the review 5.0 of that record. *)
Lemma review_of_hundred :
  addMover (Build_Context None (Some hundred_mover)) movers0
    = ([(StatusCreated, JMover hundred_mover)], movers0 ++ [hundred_mover]) /\
  recommendMover (review 98 (of_int 5)) (movers0 ++ [hundred_mover])
    = ([(StatusOK, JMover (Build_mover 98 "Hundred Movers" (literal 105 2) "+10000000098" 2))],
       movers0 ++ [Build_mover 98 "Hundred Movers" (literal 105 2) "+10000000098" 2]) /\
  leb (literal 105 2) five = false.
Proof. vm_compute. auto. Qed.

(** Against C5 as stated: a successful review of a record rated 100
    leaves it rated 52.5. *)
Lemma review_can_leave_range :
  ~ (forall (context : Context) (movers movers' : list mover) (m' : mover),
       recommendMover context movers = ([(StatusOK, JMover m')], movers') ->
       leb zero (Rating m') = true /\ leb (Rating m') five = true).
Proof.
  intros H.
  destruct review_of_hundred as (_ & E & Hout).
  destruct (H _ _ _ _ E) as [_ H5]. cbn [Rating] in H5. congruence.
Qed.

(** The job count matters too: 1801439850948197 is the last one with
    [5 * (n + 1)] below 2^53, and at the next one the rounding of the sums
    lifts a rating of 5.0 above 5.0. *)
Lemma rounding_can_leave_range :
  5 * (1801439850948197 + 1) < 2 ^ 53 /\
  leb (new_rating five 1801439850948198 five) five = false /\
  gtb (new_rating five 1801439850948198 five) five = true.
Proof. vm_compute. auto. Qed.

(** C5, amended: an accepted review of a record whose rating is within
    [0, 5] and whose job count [n] is not negative, with [5 * (n + 1)]
    below 2^53, answers 200 and leaves the record with a rating within
    [0, 5]. *)
Theorem review_keeps_rating_in_range
    (context : Context) (id : Z) (l1 l2 : list mover) (m updatedRating : mover) :
  ParamId context = Some id ->
  Body context = Some updatedRating ->
  Forall (fun x => ID x <> id) l1 ->
  ID m = id ->
  is_float64 (Rating m) ->
  is_float64 (Rating updatedRating) ->
  leb zero (Rating m) = true -> leb (Rating m) five = true ->
  0 <= JobsAmount m -> 5 * (JobsAmount m + 1) < 2 ^ 53 ->
  leb zero (Rating updatedRating) = true -> leb (Rating updatedRating) five = true ->
  exists m',
    recommendMover context (l1 ++ m :: l2) = ([(StatusOK, JMover m')], l1 ++ m' :: l2) /\
    is_float64 (Rating m') /\
    leb zero (Rating m') = true /\ leb (Rating m') five = true.
Proof.
  intros Hid Hbody Hall Hm Vm Vu R0 R5 Hn0 Hn U0 U5.
  rewrite (recommendMover_found context id l1 l2 m Hid Hall Hm), Hbody.
  unfold geb. fold (leb zero (Rating updatedRating)). rewrite U0, U5. cbn [andb].
  eexists. split; [reflexivity|]. cbn [Rating].
  now apply new_rating_in_range.
Qed.

Lemma review_keeps_rating_in_range_example :
  exists m',
    recommendMover (review 1 (of_int 5)) movers0
      = ([(StatusOK, JMover m')], m' :: tl movers0) /\
    is_float64 (Rating m') /\
    leb zero (Rating m') = true /\ leb (Rating m') five = true.
Proof.
  apply (review_keeps_rating_in_range (review 1 (of_int 5)) 1 [] (tl movers0)
           (Build_mover 1 "San Francisco MOV" (literal 46 10) "+15615557689" 3780)
           (Build_mover 0 "" (of_int 5) "" 0)).
  - reflexivity.
  - reflexivity.
  - constructor.
  - reflexivity.
  - vm_compute. reflexivity.
  - vm_compute. reflexivity.
  - vm_compute. reflexivity.
  - vm_compute. reflexivity.
  - cbn [JobsAmount]. lia.
  - cbn [JobsAmount]. lia.
  - vm_compute. reflexivity.
  - vm_compute. reflexivity.
Defined.

(** ** C10: the unguarded division *)



(** ** Identifiers stay distinct

    In the final variant every handler keeps the identifiers of the store
    distinct, so the order [less] works towards is total on the store as
    long as no rating is NaN. *)

Lemma checkMoverExists_false_id (newMover : mover) (movers : list mover) :
  checkMoverExists newMover movers = false -> ~ In (ID newMover) (map ID movers).
Proof.
  induction movers as [|e rest IH]; simpl; [tauto|].
  destruct ((ID e =? ID newMover) || String.eqb (Name e) (Name newMover)) eqn:E;
    [discriminate|].
  apply orb_false_iff in E. destruct E as [E _]. apply Z.eqb_neq in E.
  intros H [H1|H1]; [contradiction|]. now apply IH.
Qed.

Lemma initializeRouter_ids_distinct (r : route) (context : Context) (movers : list mover) :
  NoDup (map ID movers) -> NoDup (map ID (snd (initializeRouter r context movers))).
Proof.
  intros Hnd. destruct r; cbn [initializeRouter].
  - unfold getMovers. destruct (len movers =? 0)%nat; exact Hnd.
  - unfold addMover. destruct (Body context) as [newMover|]; [|exact Hnd].
    destruct (checkMoverExists newMover movers) eqn:E; [exact Hnd|].
    destruct (checkMoverTelNumber newMover movers); [exact Hnd|].
    cbn [snd]. rewrite map_app. cbn [map].
    apply (Permutation_NoDup (l := ID newMover :: map ID movers)).
    + apply Permutation_cons_append.
    + constructor; [now apply checkMoverExists_false_id|exact Hnd].
  - unfold deleteMover, extractId. destruct (ParamId context) as [id|]; [|exact Hnd].
    destruct (findMoverIndexById id movers) as [i|] eqn:E; [|exact Hnd].
    destruct (findMoverIndexById_Some id movers i E) as (l1 & m & l2 & -> & Hl & _ & _).
    cbn [snd]. subst i. rewrite deleteElement_middle.
    rewrite map_app in *. cbn [map] in Hnd. now apply NoDup_remove_1 in Hnd.
  - unfold recommendMover at 1. unfold extractId. cbn [fst snd].
    destruct (ParamId context) as [id|] eqn:Hid; [|exact Hnd].
    unfold getMoverById.
    destruct (findMoverIndexById id movers) as [i|] eqn:E; [|exact Hnd].
    destruct (findMoverIndexById_Some id movers i E) as (l1 & m & l2 & -> & Hl & Hm & Hall).
    destruct (Body context) as [u|]; [|exact Hnd].
    destruct (geb (Rating u) zero && leb (Rating u) five); [|exact Hnd].
    cbv zeta. cbn [snd]. subst i.
    repeat (rewrite ?load_middle, ?store_middle).
    rewrite map_app in *. exact Hnd.
Qed.

(** X1: whatever requests are served from the initial database, the
    identifiers of the store are pairwise distinct. *)
Lemma serve_ids_distinct (requests : list (route * Context)) :
  NoDup (map ID (serve requests movers0)).
Proof.
  assert (H0 : NoDup (map ID movers0)).
  { cbn. repeat (constructor; [cbn; intuition discriminate|]). constructor. }
  revert H0. generalize movers0. induction requests as [|[r context] rest IH];
    intros movers Hnd; cbn [serve]; [exact Hnd|].
  apply IH. now apply initializeRouter_ids_distinct.
Qed.

(** * More of the code *)

(** ** What a handler can do to the store *)

Lemma recommendMover_cases (context : Context) (movers : list mover) :
  snd (recommendMover context movers) = movers \/
  exists id l1 m l2 updatedRating,
    ParamId context = Some id /\ Body context = Some updatedRating /\
    movers = l1 ++ m :: l2 /\ Forall (fun x => ID x <> id) l1 /\ ID m = id /\
    recommendMover context movers =
      ([(StatusOK,
         JMover (Build_mover (ID m) (Name m)
                   (new_rating (Rating m) (JobsAmount m) (Rating updatedRating))
                   (TelephoneNumber m) (int_add (JobsAmount m) 1)))],
       l1 ++ Build_mover (ID m) (Name m)
               (new_rating (Rating m) (JobsAmount m) (Rating updatedRating))
               (TelephoneNumber m) (int_add (JobsAmount m) 1) :: l2).
Proof.
  destruct (ParamId context) as [id|] eqn:Hid.
  2:{ left. unfold recommendMover, extractId. now rewrite Hid. }
  destruct (findMoverIndexById id movers) as [i|] eqn:E.
  2:{ left. unfold recommendMover, extractId, getMoverById. now rewrite Hid, E. }
  destruct (findMoverIndexById_Some id movers i E) as (l1 & m & l2 & -> & _ & Hm & Hall).
  rewrite (recommendMover_found context id l1 l2 m Hid Hall Hm).
  destruct (Body context) as [u|] eqn:Hbody; [|now left].
  destruct (geb (Rating u) zero && leb (Rating u) five); [|now left].
  right. exists id, l1, m, l2, u. repeat split; auto.
Qed.

Lemma deleteMover_cases (context : Context) (movers : list mover) :
  snd (deleteMover context movers) = movers \/
  exists id l1 m l2,
    ParamId context = Some id /\
    movers = l1 ++ m :: l2 /\ Forall (fun x => ID x <> id) l1 /\ ID m = id /\
    deleteMover context movers
      = ([(StatusOK, JH "message" "Mover deleted successfully")], l1 ++ l2).
Proof.
  unfold deleteMover, extractId.
  destruct (ParamId context) as [id|] eqn:Hid; [|now left].
  destruct (findMoverIndexById id movers) as [i|] eqn:E; [|now left].
  destruct (findMoverIndexById_Some id movers i E) as (l1 & m & l2 & -> & Hl & Hm & Hall).
  right. exists id, l1, m, l2. subst i. rewrite deleteElement_middle. auto.
Qed.

Lemma addMover_cases (context : Context) (movers : list mover) :
  snd (addMover context movers) = movers \/
  exists newMover,
    Body context = Some newMover /\
    checkMoverExists newMover movers = false /\
    checkMoverTelNumber newMover movers = false /\
    addMover context movers = ([(StatusCreated, JMover newMover)], movers ++ [newMover]).
Proof.
  unfold addMover. destruct (Body context) as [newMover|]; [|now left].
  destruct (checkMoverExists newMover movers) eqn:E1; [now left|].
  destruct (checkMoverTelNumber newMover movers) eqn:E2; [now left|].
  right. exists newMover. auto.
Qed.

Lemma getMovers_store (context : Context) (movers : list mover) :
  snd (getMovers context movers) = movers.
Proof. unfold getMovers. destruct (len movers =? 0)%nat; reflexivity. Qed.

(** ** Names and telephone numbers stay distinct *)

Lemma checkMoverExists_false_name (newMover : mover) (movers : list mover) :
  checkMoverExists newMover movers = false -> ~ In (Name newMover) (map Name movers).
Proof.
  induction movers as [|e rest IH]; simpl; [tauto|].
  destruct ((ID e =? ID newMover) || String.eqb (Name e) (Name newMover)) eqn:E;
    [discriminate|].
  apply orb_false_iff in E. destruct E as [_ E]. apply String.eqb_neq in E.
  intros H [H1|H1]; [contradiction|]. now apply IH.
Qed.

Lemma checkMoverTelNumber_false (newMover : mover) (movers : list mover) :
  checkMoverTelNumber newMover movers = false ->
  ~ In (TelephoneNumber newMover) (map TelephoneNumber movers).
Proof.
  induction movers as [|e rest IH]; simpl; [tauto|].
  destruct (String.eqb (TelephoneNumber e) (TelephoneNumber newMover)) eqn:E;
    [discriminate|].
  apply String.eqb_neq in E. intros H [H1|H1]; [contradiction|]. now apply IH.
Qed.

Section KeptDistinct.

Variable A : Type.
Variable f : mover -> A.

(** The field is checked at creation and is none of the two a review
    writes. *)
Hypothesis f_checked :
  forall newMover movers,
    checkMoverExists newMover movers = false ->
    checkMoverTelNumber newMover movers = false ->
    ~ In (f newMover) (map f movers).
Hypothesis f_kept :
  forall m r j, f (Build_mover (ID m) (Name m) r (TelephoneNumber m) j) = f m.

Lemma initializeRouter_keeps_distinct (r : route) (context : Context) (movers : list mover) :
  NoDup (map f movers) -> NoDup (map f (snd (initializeRouter r context movers))).
Proof.
  intros Hnd. destruct r; cbn [initializeRouter].
  - now rewrite getMovers_store.
  - destruct (addMover_cases context movers) as [->|(n & _ & E1 & E2 & ->)]; [exact Hnd|].
    cbn [snd]. rewrite map_app. cbn [map].
    apply (Permutation_NoDup (l := f n :: map f movers)).
    + apply Permutation_cons_append.
    + constructor; [now apply f_checked|exact Hnd].
  - destruct (deleteMover_cases context movers) as [->|(id & l1 & m & l2 & _ & -> & _ & _ & ->)];
      [exact Hnd|].
    cbn [snd]. rewrite map_app in *. cbn [map] in Hnd. now apply NoDup_remove_1 in Hnd.
  - destruct (recommendMover_cases context movers)
      as [->|(id & l1 & m & l2 & u & _ & _ & -> & _ & _ & ->)]; [exact Hnd|].
    cbn [snd]. rewrite map_app in *. cbn [map] in *. now rewrite f_kept.
Qed.

Lemma serve_keeps_distinct (requests : list (route * Context)) (movers : list mover) :
  NoDup (map f movers) -> NoDup (map f (serve requests movers)).
Proof.
  revert movers. induction requests as [|[r context] rest IH]; intros movers Hnd;
    cbn [serve]; [exact Hnd|].
  apply IH. now apply initializeRouter_keeps_distinct.
Qed.

End KeptDistinct.

(** X2: whatever requests are served from the initial database, the
    names of the store are pairwise distinct, and so are its telephone
    numbers. *)
Theorem serve_names_phones_distinct (requests : list (route * Context)) :
  NoDup (map Name (serve requests movers0)) /\
  NoDup (map TelephoneNumber (serve requests movers0)).
Proof.
  split.
  - apply serve_keeps_distinct.
    + intros n l H _. now apply checkMoverExists_false_name.
    + reflexivity.
    + cbn. repeat (constructor; [cbn; intuition discriminate|]). constructor.
  - apply serve_keeps_distinct.
    + intros n l _ H. now apply checkMoverTelNumber_false.
    + reflexivity.
    + cbn. repeat (constructor; [cbn; intuition discriminate|]). constructor.
Qed.

(** ** Failures leave the store alone *)

(** X3: a request changes the store only if it is answered with 200 or
    201: every failing path of every handler returns the store it was
    given. *)
Theorem initializeRouter_failure_keeps_store
    (r : route) (context : Context) (movers : list mover) :
  snd (initializeRouter r context movers) = movers \/
  exists p,
    fst (initializeRouter r context movers) = [(StatusOK, p)] \/
    fst (initializeRouter r context movers) = [(StatusCreated, p)].
Proof.
  destruct r; cbn [initializeRouter].
  - left. apply getMovers_store.
  - destruct (addMover_cases context movers) as [H|(n & _ & _ & _ & ->)]; [now left|].
    right. eexists. right. reflexivity.
  - destruct (deleteMover_cases context movers) as [H|(id & l1 & m & l2 & _ & _ & _ & _ & ->)];
      [now left|].
    right. eexists. left. reflexivity.
  - destruct (recommendMover_cases context movers)
      as [H|(id & l1 & m & l2 & u & _ & _ & _ & _ & _ & ->)]; [now left|].
    right. eexists. left. reflexivity.
Qed.

(** ** How many answers a request gets *)

Lemma MainGo_recommendMover_one (context : Context) (movers : list mover) :
  List.length (fst (MainGo.recommendMover context movers)) = 1%nat.
Proof.
  unfold MainGo.recommendMover, extractId.
  destruct (ParamId context); [|reflexivity].
  destruct (getMoverById _ _); [|reflexivity].
  destruct (Body context); [|reflexivity].
  destruct (geb _ _ && leb _ _); reflexivity.
Qed.

(** X4: the final variant answers a deletion or a review whose
    identifier does not parse twice (the 400 of [extractId], then a 404 of
    the handler) and every other request once; main.go and the first
    variant answer every request once. *)
Theorem answers_per_request (r : route) (context : Context) (movers : list mover) :
  List.length (fst (initializeRouter r context movers)) =
    match r, ParamId context with
    | DELETE_movers_id, None | POST_movers_id_review, None => 2%nat
    | _, _ => 1%nat
    end /\
  List.length (fst (MainGoRoutes.router r context movers)) = 1%nat /\
  forall s : FirstVariant.slice,
    List.length (fst (FirstVariant.router r context s)) = 1%nat.
Proof.
  split; [|split].
  - destruct r; cbn [initializeRouter].
    + unfold getMovers. destruct (len movers =? 0)%nat; destruct (ParamId context); reflexivity.
    + unfold addMover. destruct (Body context) as [n|]; [|destruct (ParamId context); reflexivity].
      destruct (checkMoverExists n movers); [destruct (ParamId context); reflexivity|].
      destruct (checkMoverTelNumber n movers); destruct (ParamId context); reflexivity.
    + unfold deleteMover, extractId. destruct (ParamId context); [|reflexivity].
      destruct (findMoverIndexById _ _); reflexivity.
    + unfold recommendMover, extractId. destruct (ParamId context); [|reflexivity].
      destruct (getMoverById _ _); [|reflexivity].
      destruct (Body context); [|reflexivity].
      destruct (geb _ _ && leb _ _); reflexivity.
  - destruct r; cbn [MainGoRoutes.router].
    + unfold MainGo.getMovers. destruct (len movers =? 0)%nat; reflexivity.
    + unfold MainGo.addMover. destruct (Body context); reflexivity.
    + unfold MainGoRoutes.deleteMover, extractId. destruct (ParamId context); [|reflexivity].
      destruct (findMoverIndexById _ _); reflexivity.
    + apply MainGo_recommendMover_one.
  - intros s. destruct r; cbn [FirstVariant.router].
    + unfold FirstVariant.getMovers. destruct s; reflexivity.
    + unfold FirstVariant.addMover. destruct (Body context); reflexivity.
    + unfold FirstVariant.deleteMover. destruct (ParamId context); [|reflexivity].
      destruct (findMoverIndexById _ _); reflexivity.
    + unfold FirstVariant.updateMover. destruct (ParamId context); [|reflexivity].
      destruct (getMoverById _ _); [|reflexivity].
      destruct (Body context); [|reflexivity].
      destruct (geb _ _ && leb _ _); reflexivity.
Qed.

(** ** The listing *)

(** X5: the listing of a store that is not empty answers 200 with every
    record of the store exactly once: the list is a permutation of the
    store. *)
Theorem getMovers_lists_every_record (context : Context) (m : mover) (rest : list mover) :
  exists l,
    getMovers context (m :: rest) = ([(StatusOK, JMovers l)], m :: rest) /\
    Permutation l (m :: rest).
Proof.
  exists (sortMoversByRatingAndId (m :: rest)). split; [reflexivity|].
  rewrite sortMoversByRatingAndId_eq. apply sort_Slice_perm.
Qed.

(** X6: with distinct identifiers and no NaN rating the ranking does not
    depend on the order in which the records are stored. *)
Theorem rank_order_independent (movers movers' : list mover) :
  no_nan movers -> NoDup (map ID movers) -> Permutation movers' movers ->
  sortMoversByRatingAndId movers' = sortMoversByRatingAndId movers.
Proof.
  intros Hnan Hnd Hp. apply rank_unique; auto.
  - rewrite sortMoversByRatingAndId_eq.
    eapply Permutation_trans; [apply sort_Slice_perm|exact Hp].
  - rewrite sortMoversByRatingAndId_eq. apply sort_Slice_Sorted, less_asym.
Qed.

Lemma rank_order_independent_example :
  sortMoversByRatingAndId (rev movers0) = sortMoversByRatingAndId movers0.
Proof.
  apply rank_order_independent.
  - vm_compute. repeat constructor.
  - cbn. repeat (constructor; [cbn; intuition discriminate|]). constructor.
  - apply Permutation_sym, Permutation_rev.
Defined.

(** ** Creation, lookup and deletion together *)

Lemma findMoverIndexById_app_None (id : Z) (l1 l2 : list mover) :
  findMoverIndexById id l1 = None ->
  findMoverIndexById id (l1 ++ l2)
    = option_map (fun i => (List.length l1 + i)%nat) (findMoverIndexById id l2).
Proof.
  induction l1 as [|x l1 IH]; simpl; intros H.
  - destruct (findMoverIndexById id l2); reflexivity.
  - destruct (ID x =? id); [discriminate|].
    destruct (findMoverIndexById id l1); [discriminate|].
    rewrite (IH eq_refl). destruct (findMoverIndexById id l2); reflexivity.
Qed.

Lemma findMoverIndexById_app_Some (id : Z) (l1 l2 : list mover) (i : nat) :
  findMoverIndexById id l1 = Some i -> findMoverIndexById id (l1 ++ l2) = Some i.
Proof.
  revert i. induction l1 as [|x l1 IH]; simpl; intros i H; [discriminate|].
  destruct (ID x =? id); [exact H|].
  destruct (findMoverIndexById id l1) as [j|]; [|discriminate].
  now rewrite (IH j eq_refl).
Qed.

Lemma checkMoverExists_false_lookup (newMover : mover) (movers : list mover) :
  checkMoverExists newMover movers = false ->
  findMoverIndexById (ID newMover) movers = None.
Proof.
  intros H. apply findMoverIndexById_None. apply Forall_forall. intros x Hx E.
  apply (checkMoverExists_false_id newMover movers H). rewrite <- E. now apply in_map.
Qed.

(** X7: a record that was created is found by its identifier, at the
    end of the store, and read back as it was given. *)
Theorem addMover_then_lookup (context : Context) (movers : list mover) (newMover : mover) :
  Body context = Some newMover ->
  checkMoverExists newMover movers = false ->
  checkMoverTelNumber newMover movers = false ->
  getMoverById (ID newMover) (snd (addMover context movers)) = Some (len movers) /\
  load (len movers) (snd (addMover context movers)) = newMover /\
  len (snd (addMover context movers)) = S (len movers).
Proof.
  intros Hbody E1 E2. unfold addMover. rewrite Hbody, E1, E2. cbn [snd].
  unfold getMoverById, len. split; [|split].
  - rewrite (findMoverIndexById_app_None _ _ _ (checkMoverExists_false_lookup _ _ E1)).
    simpl. rewrite Z.eqb_refl. simpl. f_equal. lia.
  - apply load_middle.
  - rewrite length_app. simpl. lia.
Qed.

Lemma addMover_then_lookup_example :
  getMoverById 98 (snd (addMover (Build_Context None (Some hundred_mover)) movers0))
    = Some 15%nat /\
  load 15 (snd (addMover (Build_Context None (Some hundred_mover)) movers0)) = hundred_mover /\
  len (snd (addMover (Build_Context None (Some hundred_mover)) movers0)) = 16%nat.
Proof.
  exact (addMover_then_lookup (Build_Context None (Some hundred_mover)) movers0 hundred_mover
           eq_refl eq_refl eq_refl).
Defined.

(** X8: deleting a record that was just created gives back the store
    as it was before the creation. *)
Theorem addMover_then_deleteMover
    (context context' : Context) (movers : list mover) (newMover : mover) :
  Body context = Some newMover ->
  checkMoverExists newMover movers = false ->
  checkMoverTelNumber newMover movers = false ->
  ParamId context' = Some (ID newMover) ->
  deleteMover context' (snd (addMover context movers))
    = ([(StatusOK, JH "message" "Mover deleted successfully")], movers).
Proof.
  intros Hbody E1 E2 Hid. unfold addMover. rewrite Hbody, E1, E2. cbn [snd].
  unfold deleteMover, extractId. rewrite Hid.
  assert (Hall : Forall (fun x => ID x <> ID newMover) movers).
  { apply findMoverIndexById_None. now apply checkMoverExists_false_lookup. }
  rewrite (findMoverIndexById_first (ID newMover) movers [] newMover Hall eq_refl).
  rewrite deleteElement_middle, app_nil_r. reflexivity.
Qed.

Lemma addMover_then_deleteMover_example :
  deleteMover (Build_Context (Some 98) None)
    (snd (addMover (Build_Context None (Some hundred_mover)) movers0))
    = ([(StatusOK, JH "message" "Mover deleted successfully")], movers0).
Proof.
  exact (addMover_then_deleteMover (Build_Context None (Some hundred_mover))
           (Build_Context (Some 98) None) movers0 hundred_mover
           eq_refl eq_refl eq_refl eq_refl).
Defined.

(** X9: in a store with distinct identifiers, an identifier that was
    deleted is not found any more, and a second deletion of it answers
    404 and changes nothing. *)
Theorem deleteMover_then_lookup (context : Context) (id : Z) (movers : list mover) :
  NoDup (map ID movers) ->
  ParamId context = Some id ->
  getMoverById id (snd (deleteMover context movers)) = None /\
  deleteMover context (snd (deleteMover context movers))
    = ([(StatusNotFound, JH "message" "Mover not found")], snd (deleteMover context movers)).
Proof.
  intros Hnd Hid.
  assert (H : findMoverIndexById id (snd (deleteMover context movers)) = None).
  { destruct (deleteMover_cases context movers)
      as [E|(id' & l1 & m & l2 & Hid' & -> & Hall & Hm & ->)].
    - rewrite E. unfold deleteMover, extractId in E. rewrite Hid in E.
      destruct (findMoverIndexById id movers) as [i|] eqn:F; [|reflexivity].
      exfalso. destruct (findMoverIndexById_Some id movers i F)
        as (l1 & m & l2 & -> & Hl & _ & _).
      cbn [snd] in E. subst i. rewrite deleteElement_middle in E.
      apply (f_equal (@List.length mover)) in E. rewrite !length_app in E. simpl in E. lia.
    - cbn [snd]. assert (Eid : id' = id) by congruence. rewrite Eid in *.
      apply findMoverIndexById_None. apply Forall_app. split; [exact Hall|].
      rewrite map_app in Hnd. cbn [map] in Hnd. apply NoDup_remove_2 in Hnd.
      apply Forall_forall. intros x Hx E. apply Hnd. apply in_or_app. right.
      rewrite Hm, <- E. now apply in_map. }
  split; [exact H|]. unfold deleteMover at 1. unfold extractId. now rewrite Hid, H.
Qed.

Lemma deleteMover_then_lookup_example :
  getMoverById 7 (snd (deleteMover (Build_Context (Some 7) None) movers0)) = None /\
  deleteMover (Build_Context (Some 7) None)
    (snd (deleteMover (Build_Context (Some 7) None) movers0))
    = ([(StatusNotFound, JH "message" "Mover not found")],
       snd (deleteMover (Build_Context (Some 7) None) movers0)).
Proof.
  apply (deleteMover_then_lookup (Build_Context (Some 7) None) 7 movers0).
  - cbn. repeat (constructor; [cbn; intuition discriminate|]). constructor.
  - reflexivity.
Defined.

(** ** What a review leaves alone *)

(** X10: a review, accepted or not, keeps the length of the store and
    every identifier, name and telephone number, and changes no record
    other than the first one with the requested identifier. *)
Theorem recommendMover_frame (context : Context) (movers : list mover) :
  map ID (snd (recommendMover context movers)) = map ID movers /\
  map Name (snd (recommendMover context movers)) = map Name movers /\
  map TelephoneNumber (snd (recommendMover context movers)) = map TelephoneNumber movers /\
  forall j,
    nth_error (snd (recommendMover context movers)) j = nth_error movers j \/
    exists id, ParamId context = Some id /\ getMoverById id movers = Some j.
Proof.
  destruct (recommendMover_cases context movers)
    as [->|(id & l1 & m & l2 & u & Hid & _ & -> & Hall & Hm & ->)]; [auto|].
  cbn [snd]. rewrite !map_app. cbn [map ID Name TelephoneNumber].
  repeat split; auto. intros j.
  destruct (Nat.eq_dec j (List.length l1)) as [->|Hj].
  - right. exists id. split; [exact Hid|]. now apply findMoverIndexById_first.
  - left. destruct (Nat.lt_ge_cases j (List.length l1)) as [Hlt|Hge].
    + now rewrite !nth_error_app1.
    + rewrite !nth_error_app2 by exact Hge.
      destruct (j - List.length l1)%nat as [|k] eqn:E; [lia|reflexivity].
Qed.

(** X11: review and deletion work on the first record with the
    identifier: when the store before the records [later] holds the
    identifier, the answer is the one for that store alone and [later] is
    left as it is, also where it holds the identifier again. *)
Theorem first_match_shadows_later
    (context : Context) (id : Z) (movers later : list mover) :
  ParamId context = Some id ->
  Exists (fun x => ID x = id) movers ->
  recommendMover context (movers ++ later)
    = (fst (recommendMover context movers), snd (recommendMover context movers) ++ later) /\
  deleteMover context (movers ++ later)
    = (fst (deleteMover context movers), snd (deleteMover context movers) ++ later).
Proof.
  intros Hid Hex.
  destruct (findMoverIndexById id movers) as [i|] eqn:E.
  2:{ apply findMoverIndexById_None in E. apply Exists_exists in Hex.
      destruct Hex as (x & Hx & Hxid). rewrite Forall_forall in E.
      exfalso. now apply (E x Hx). }
  destruct (findMoverIndexById_Some id movers i E) as (l1 & m & l2 & -> & Hl & Hm & Hall).
  split.
  - rewrite <- app_assoc. cbn [app].
    rewrite !(recommendMover_found context id l1 _ m Hid Hall Hm).
    destruct (Body context) as [u|]; cbn [fst snd].
    + destruct (geb (Rating u) zero && leb (Rating u) five); cbv zeta; cbn [fst snd];
        now rewrite <- app_assoc.
    + now rewrite <- app_assoc.
  - unfold deleteMover, extractId. rewrite Hid.
    rewrite (findMoverIndexById_app_Some id _ later i E), E. cbn [fst snd].
    subst i. rewrite deleteElement_middle. rewrite <- (app_assoc l1 (m :: l2) later).
    cbn [app]. rewrite deleteElement_middle. now rewrite app_assoc.
Qed.

Lemma first_match_shadows_later_example :
  recommendMover (review 7 (of_int 5)) (movers0 ++ [example_mover (of_int 4) 0])
    = (fst (recommendMover (review 7 (of_int 5)) movers0),
       snd (recommendMover (review 7 (of_int 5)) movers0) ++ [example_mover (of_int 4) 0]) /\
  deleteMover (review 7 (of_int 5)) (movers0 ++ [example_mover (of_int 4) 0])
    = (fst (deleteMover (review 7 (of_int 5)) movers0),
       snd (deleteMover (review 7 (of_int 5)) movers0) ++ [example_mover (of_int 4) 0]).
Proof.
  apply (first_match_shadows_later (review 7 (of_int 5)) 7 movers0).
  - reflexivity.
  - do 6 apply Exists_cons_tl. apply Exists_cons_hd. reflexivity.
Defined.

(** ** The variants against each other *)


(** X13: main.go and the final variant answer a listing of a store that
    is not empty with the same list, and a deletion or a review whose
    identifier parses in the same way, with the same store left; where the
    identifier does not parse the final variant adds its 404 to main.go's
    answer. *)
Theorem MainGo_agrees_with_final (context : Context) (movers : list mover) :
  (movers = [] \/ fst (MainGo.getMovers context movers) = fst (getMovers context movers)) /\
  match ParamId context with
  | Some _ =>
      MainGoRoutes.deleteMover context movers = deleteMover context movers /\
      MainGo.recommendMover context movers = recommendMover context movers
  | None =>
      deleteMover context movers
        = (fst (MainGoRoutes.deleteMover context movers)
             ++ [(StatusNotFound, JH "error" "Extracting ID error")], movers) /\
      recommendMover context movers
        = (fst (MainGo.recommendMover context movers)
             ++ [(StatusNotFound, JH "error" "Extracting ID error")], movers)
  end.
Proof.
  split.
  - destruct movers as [|m rest]; [now left|right].
    unfold MainGo.getMovers, getMovers, MainGo.sortMoversByRateAndID.
    simpl (len (m :: rest) =? 0)%nat. cbv iota zeta.
    now rewrite sortMoversByRatingAndId_eq.
  - unfold MainGoRoutes.deleteMover, deleteMover, MainGo.recommendMover, recommendMover,
      extractId.
    destruct (ParamId context) as [id|]; [|split; reflexivity].
    split; [|reflexivity].
    destruct (findMoverIndexById id movers); reflexivity.
Qed.

(** X14: on a slice that is not nil the first variant does what main.go
    does, for every route, except that it answers the listing of an empty
    slice with 200 and the empty list. *)
Theorem FirstVariant_agrees_with_MainGo (r : route) (context : Context) (l : list mover) :
  (r = GET_movers /\ l = [] /\
   FirstVariant.router r context (Some l) = ([(StatusOK, JMovers [])], Some [])) \/
  FirstVariant.router r context (Some l)
    = (fst (MainGoRoutes.router r context l), Some (snd (MainGoRoutes.router r context l))).
Proof.
  destruct r; cbn [FirstVariant.router MainGoRoutes.router].
  - destruct l as [|m rest]; [left; auto|right]. reflexivity.
  - right. unfold FirstVariant.addMover, MainGo.addMover.
    destruct (Body context); reflexivity.
  - right. unfold FirstVariant.deleteMover, MainGoRoutes.deleteMover, extractId.
    destruct (ParamId context) as [id|]; [|reflexivity]. cbn [FirstVariant.elems].
    destruct (findMoverIndexById id l); reflexivity.
  - right. unfold FirstVariant.updateMover, MainGo.recommendMover, extractId.
    destruct (ParamId context) as [id|]; [|reflexivity]. cbn [FirstVariant.elems].
    destruct (getMoverById id l); [|reflexivity].
    destruct (Body context) as [u|]; [|reflexivity].
    destruct (geb (Rating u) zero && leb (Rating u) five); reflexivity.
Qed.

Lemma FirstVariant_router_not_nil (r : route) (context : Context) (l : list mover) :
  exists l', snd (FirstVariant.router r context (Some l)) = Some l'.
Proof.
  destruct r; cbn [FirstVariant.router].
  - eexists. reflexivity.
  - unfold FirstVariant.addMover. destruct (Body context); eexists; reflexivity.
  - unfold FirstVariant.deleteMover. destruct (ParamId context); [|eexists; reflexivity].
    destruct (findMoverIndexById _ _); eexists; reflexivity.
  - unfold FirstVariant.updateMover. destruct (ParamId context); [|eexists; reflexivity].
    destruct (getMoverById _ _); [|eexists; reflexivity].
    destruct (Body context); [|eexists; reflexivity].
    destruct (geb _ _ && leb _ _); eexists; reflexivity.
Qed.

(** X15: in the first variant the global slice is never nil, whatever
    requests were served, so its listing never gives the answer "movers
    list is empty": it answers 200 with the ranked slice, which is the
    empty list once every record was deleted. *)
Theorem FirstVariant_listing_never_fails
    (requests : list (route * Context)) (context : Context) :
  exists l,
    FirstVariant.serve requests FirstVariant.movers_init = Some l /\
    FirstVariant.getMovers context (FirstVariant.serve requests FirstVariant.movers_init)
      = ([(StatusOK, JMovers (sort_Slice less l))], Some (sort_Slice less l)) /\
    (l = [] ->
     fst (FirstVariant.getMovers context
            (FirstVariant.serve requests FirstVariant.movers_init))
       = [(StatusOK, JMovers [])]).
Proof.
  assert (H : forall l0, exists l, FirstVariant.serve requests (Some l0) = Some l).
  { induction requests as [|[r c] rest IH]; intros l0; cbn [FirstVariant.serve].
    - now exists l0.
    - destruct (FirstVariant_router_not_nil r c l0) as (l' & ->). apply IH. }
  destruct (H movers0) as (l & E). exists l. unfold FirstVariant.movers_init. rewrite E.
  split; [reflexivity|]. split; [reflexivity|]. intros ->. reflexivity.
Qed.

(** The records can all be deleted: the listing of main.go then answers
    400, that of the first variant 200 with the empty list. *)
Lemma listing_after_deleting_all :
  let deletions :=
    map (fun id => (DELETE_movers_id, Build_Context (Some (Z.of_nat id)) None)) (seq 1 15) in
  FirstVariant.serve deletions FirstVariant.movers_init = Some [] /\
  fst (FirstVariant.getMovers (Build_Context None None)
         (FirstVariant.serve deletions FirstVariant.movers_init))
    = [(StatusOK, JMovers [])] /\
  serve deletions movers0 = [] /\
  fst (getMovers (Build_Context None None) (serve deletions movers0))
    = [(StatusNotFound, JH "error" "movers list is empty")].
Proof. vm_compute. auto. Qed.

(** X16: main.go's creation checks nothing, so it stores a candidate
    whose identifier is taken; the identifiers are then not distinct, and
    the lookup by that identifier still gives the older record. *)
Theorem MainGo_addMover_duplicate (context : Context) (movers : list mover) (newMover : mover) :
  Body context = Some newMover ->
  Exists (fun x => ID x = ID newMover) movers ->
  MainGo.addMover context movers = ([(StatusCreated, JMover newMover)], movers ++ [newMover]) /\
  ~ NoDup (map ID (snd (MainGo.addMover context movers))) /\
  getMoverById (ID newMover) (snd (MainGo.addMover context movers))
    = getMoverById (ID newMover) movers /\
  getMoverById (ID newMover) movers <> None.
Proof.
  intros Hbody Hex. unfold MainGo.addMover. rewrite Hbody. cbn [snd].
  assert (Hfound : findMoverIndexById (ID newMover) movers <> None).
  { intros E. apply findMoverIndexById_None in E. apply Exists_exists in Hex.
    destruct Hex as (x & Hx & Hxid). rewrite Forall_forall in E. now apply (E x Hx). }
  split; [reflexivity|]. split; [|split; [|exact Hfound]].
  - intros Hnd. rewrite map_app in Hnd. cbn [map] in Hnd.
    apply NoDup_remove_2 in Hnd. apply Hnd. rewrite app_nil_r.
    apply Exists_exists in Hex. destruct Hex as (x & Hx & Hxid).
    rewrite <- Hxid. now apply in_map.
  - unfold getMoverById.
    destruct (findMoverIndexById (ID newMover) movers) as [i|] eqn:E; [|contradiction].
    now apply findMoverIndexById_app_Some.
Qed.

Lemma MainGo_addMover_duplicate_example :
  MainGo.addMover (Build_Context None (Some (example_mover (of_int 4) 0))) movers0
    = ([(StatusCreated, JMover (example_mover (of_int 4) 0))],
       movers0 ++ [example_mover (of_int 4) 0]) /\
  ~ NoDup (map ID (snd (MainGo.addMover
                          (Build_Context None (Some (example_mover (of_int 4) 0))) movers0))) /\
  getMoverById 7 (snd (MainGo.addMover
                         (Build_Context None (Some (example_mover (of_int 4) 0))) movers0))
    = getMoverById 7 movers0 /\
  getMoverById 7 movers0 <> None.
Proof.
  apply (MainGo_addMover_duplicate (Build_Context None (Some (example_mover (of_int 4) 0)))
           movers0 (example_mover (of_int 4) 0)).
  - reflexivity.
  - do 6 apply Exists_cons_tl. apply Exists_cons_hd. reflexivity.
Defined.

(** ** Reviews one after the other *)

Lemma in_range_new_rating (r v : float64) (n : Z) :
  in_range r -> in_range v -> 0 <= n -> 5 * (n + 1) < 2 ^ 53 ->
  in_range (new_rating r n v).
Proof.
  intros (Vr & R0 & R5) (Vv & V0 & V5) Hn0 Hn. unfold in_range.
  now apply new_rating_in_range.
Qed.

(** X17: reviews within 0.0 and 5.0 of one record, served one after the
    other, are all accepted while [5 * (jobs + number of reviews)] stays
    below 2^53: the record stays where it is with its identifier, name and
    telephone number, its job count grows by the number of reviews, its
    rating stays within 0.0 and 5.0, and no other record changes. *)
Theorem reviews_keep_range
    (id : Z) (vs : list float64) (l1 l2 : list mover) (m : mover) :
  Forall in_range vs ->
  in_range (Rating m) ->
  Forall (fun x => ID x <> id) l1 ->
  ID m = id ->
  0 <= JobsAmount m ->
  5 * (JobsAmount m + Z.of_nat (List.length vs)) < 2 ^ 53 ->
  exists m',
    serve (reviews id vs) (l1 ++ m :: l2) = l1 ++ m' :: l2 /\
    ID m' = ID m /\ Name m' = Name m /\ TelephoneNumber m' = TelephoneNumber m /\
    JobsAmount m' = JobsAmount m + Z.of_nat (List.length vs) /\
    in_range (Rating m').
Proof.
  intros Hvs. revert m. induction Hvs as [|v vs Hv Hvs IH]; intros m Hr Hall Hm Hn0 Hn.
  - exists m. cbn [reviews map serve List.length Z.of_nat]. destruct Hr as (? & ? & ?).
    repeat split; auto; lia.
  - cbn [reviews map serve initializeRouter]. cbn [List.length] in Hn |- *. rewrite Nat2Z.inj_succ in Hn |- *.
    set (ctx := Build_Context _ _).
    rewrite (recommendMover_found ctx id l1 l2 m eq_refl Hall Hm). subst ctx. cbn [Body Rating].
    destruct Hv as (Vv & V0 & V5).
    unfold geb. fold (leb zero v). rewrite V0, V5. cbn [andb]. cbv zeta. cbn [snd].
    assert (Ej : int_add (JobsAmount m) 1 = JobsAmount m + 1).
    { unfold int_add. apply wrap_int_id. unfold is_int, int_min, int_max. lia. }
    rewrite Ej.
    set (m1 := Build_mover (ID m) (Name m) (new_rating (Rating m) (JobsAmount m) v)
                 (TelephoneNumber m) (JobsAmount m + 1)).
    destruct (IH m1) as (m' & E & H1 & H2 & H3 & H4 & H5).
    + subst m1. cbn [Rating]. apply in_range_new_rating; [exact Hr|now repeat split|lia|lia].
    + exact Hall.
    + exact Hm.
    + subst m1. cbn [JobsAmount]. lia.
    + subst m1. cbn [JobsAmount]. lia.
    + exists m'. fold (reviews id vs). rewrite E. subst m1. cbn [ID Name TelephoneNumber JobsAmount] in *.
      split; [reflexivity|]. split; [exact H1|]. split; [exact H2|]. split; [exact H3|].
      split; [lia|exact H5].
Qed.

Lemma reviews_keep_range_example :
  exists m',
    serve (reviews 7 [of_int 5; literal 35 10; of_int 0])
          ([] ++ example_mover (literal 43 10) 1290 :: [])
      = [] ++ m' :: [] /\
    ID m' = ID (example_mover (literal 43 10) 1290) /\
    Name m' = Name (example_mover (literal 43 10) 1290) /\
    TelephoneNumber m' = TelephoneNumber (example_mover (literal 43 10) 1290) /\
    JobsAmount m' =
      JobsAmount (example_mover (literal 43 10) 1290)
      + Z.of_nat (List.length [of_int 5; literal 35 10; of_int 0]) /\
    in_range (Rating m').
Proof.
  apply (reviews_keep_range 7 [of_int 5; literal 35 10; of_int 0] [] []
           (example_mover (literal 43 10) 1290)).
  - repeat (constructor; [split; [|split]; vm_compute; reflexivity|]). constructor.
  - split; [|split]; vm_compute; reflexivity.
  - constructor.
  - reflexivity.
  - vm_compute. discriminate.
  - vm_compute. reflexivity.
Defined.

(** ** The first review of a record *)

Section RoundAuxFloor.

Variables (sx : bool) (mx ex : Z) (lx : location).
Hypothesis mx_nonneg : 0 <= mx.
Hypothesis ex_low : -2200 <= ex.
Hypothesis ex_grid : ex <= fexp 53 1024 (Zdigits2 mx + ex).

(** A positive binary64 number below the next multiple of [2^ex] after
    the truncated value is at or below the rounded one. *)
Lemma binary_round_aux_floor (ml el : Z) :
  canon ml el -> 0 < ml ->
  scaled ml el < scaled (mx + 1) ex ->
  binary_round_aux 53 1024 sx mx ex lx = S754_infinity sx \/
  exists m e,
    binary_round_aux 53 1024 sx mx ex lx = S754_finite sx m e /\
    canon (Zpos m) e /\ scaled ml el <= scaled (Zpos m) e.
Proof.
  intros Hl Hml Hlt.
  destruct (binary_round_aux_spec sx mx ex lx mx_nonneg ex_grid)
    as (Hc & m2 & H2 & Hres).
  set (e1 := fexp 53 1024 (Zdigits2 mx + ex)) in *.
  set (m1 := mx / 2 ^ (e1 - ex)) in *.
  destruct (floor_grid mx ex e1 mx_nonneg ltac:(lia)) as [[F1 F2] F3]. fold m1 in F1, F2, F3.
  assert (Hnext : scaled (mx + 1) ex <= scaled (m1 + 1) e1).
  { replace e1 with (ex + (e1 - ex)) in F2 |- * by lia.
    rewrite <- scaled_shift in F2 |- * by lia.
    apply scaled_lt_inv in F2; [|lia]. apply scaled_mono; lia. }
  assert (Hm1 : scaled ml el <= scaled m1 e1).
  { destruct (Z.le_gt_cases (scaled ml el) (scaled m1 e1)) as [|G]; [assumption|exfalso].
    pose proof (grid_gap m1 e1 ml el Hc Hl G). lia. }
  assert (Hm2 : scaled ml el <= scaled m2 e1).
  { destruct Hc as (_ & ? & _).
    destruct H2 as [->|[-> _]]; [lia|].
    pose proof (scaled_mono m1 (m1 + 1) e1 ltac:(lia) ltac:(lia)). lia. }
  assert (Lpos : 0 < scaled ml el).
  { unfold scaled. destruct Hl as (_ & ? & _).
    pose proof (pow2_pos (el + 2200) ltac:(lia)). nia. }
  destruct Hres as [[Hz _]|(Hpos & m3 & e3 & C3 & V3 & Hr)].
  { exfalso. rewrite Hz in Hm2. unfold scaled in Hm2, Lpos. lia. }
  assert (V : scaled (Zpos m3) e3 = scaled m2 e1).
  { unfold scaled. replace (e3 + 2200) with (e3 - (-2200)) by lia.
    replace (e1 + 2200) with (e1 - (-2200)) by lia. apply V3.
    destruct Hc as (_ & ? & _). lia. }
  rewrite Hr. destruct (e3 <=? 971); [right|left; reflexivity].
  exists m3, e3. split; [reflexivity|]. split; [exact C3|lia].
Qed.

End RoundAuxFloor.

(** The quotient before rounding is the truncated one: the next integer
    is above the exact quotient. *)
Lemma SFdiv_core_rem (mx my : positive) (ex ey q e' : Z) (lz : location) :
  SFdiv_core_binary 53 1024 (Zpos mx) ex (Zpos my) ey = (q, e', lz) ->
  0 <= ex - ey - e' /\ Zpos mx * 2 ^ (ex - ey - e') < (q + 1) * Zpos my.
Proof.
  unfold SFdiv_core_binary.
  set (d1 := Zdigits2 (Zpos mx)). set (d2 := Zdigits2 (Zpos my)).
  set (e0 := Z.min (fexp 53 1024 (d1 + ex - (d2 + ey))) (ex - ey)).
  set (s := ex - ey - e0).
  assert (Hs : 0 <= s) by (unfold s, e0; lia).
  set (m' := match s with Z0 => Zpos mx | Zpos _ => Z.shiftl (Zpos mx) s | Zneg _ => 0 end).
  assert (Em : m' = Zpos mx * 2 ^ s).
  { unfold m'. destruct s as [|p|p] eqn:E; [rewrite Z.pow_0_r; lia| |lia].
    rewrite Z.shiftl_mul_pow2 by lia. reflexivity. }
  pose proof (Z_div_mod m' (Zpos my) ltac:(lia)) as Hdm.
  destruct (Z.div_eucl m' (Zpos my)) as [q0 r]. destruct Hdm as [Hdm Hr].
  intros H. injection H as <- <- _. fold s. split; [exact Hs|]. nia.
Qed.

Lemma SFdiv_lower (x y : spec_float) (B : Z) :
  finite_nonneg x -> finite_nonneg y -> 0 < val y -> representable B -> 0 < B ->
  B * val y <= val x * 2 ^ 2200 ->
  SFdiv 53 1024 x y = S754_infinity false \/
  exists m e, SFdiv 53 1024 x y = S754_finite false m e /\
              canon (Zpos m) e /\ B <= scaled (Zpos m) e.
Proof.
  intros Hx Hy Hpos HB HB0 Hle.
  pose proof (pow2_pos 2200 ltac:(lia)) as PT.
  destruct y as [sy|sy| |[|] my ey]; cbn [finite_nonneg] in Hy; try contradiction;
    [cbn [val] in Hpos; lia|].
  destruct x as [sx|sx| |[|] mx ex]; cbn [finite_nonneg] in Hx; try contradiction;
    [cbn [val] in Hle, Hpos; nia|].
  destruct Hx as [Cx Hx], Hy as [Cy Hy].
  pose proof Cx as (Hmx & Hex & _). pose proof Cy as (Hmy & Hey & _).
  destruct HB as (mu & eu & Cu & Hu & <-).
  cbn [SFdiv xorb]. cbn [val] in Hle, Hpos.
  destruct (SFdiv_core_spec mx my ex ey Hex ltac:(lia))
    as (q & e' & lz & s & E & Hq & He' & Hg & Hs & Hse & Hqle & Hqlt).
  destruct (SFdiv_core_rem _ _ _ _ _ _ _ E) as [_ Hrem].
  replace (ex - ey - e') with s in Hrem by lia. rewrite E.
  assert (P : 2 ^ s * 2 ^ (e' + 2200) * 2 ^ (ey + 2200) = 2 ^ (ex + 2200) * 2 ^ 2200).
  { rewrite <- !Z.pow_add_r by lia. f_equal. lia. }
  pose proof (pow2_pos s Hs) as Ps.
  pose proof (pow2_pos (e' + 2200) ltac:(lia)) as Pe.
  pose proof (pow2_pos (ey + 2200) ltac:(lia)) as Py.
  pose proof (pow2_pos (ex + 2200) ltac:(lia)) as Px.
  assert (Hmu : 0 < mu).
  { unfold scaled in HB0. destruct Cu as (? & ? & _).
    pose proof (pow2_pos (eu + 2200) ltac:(lia)). nia. }
  assert (K : scaled mu eu * scaled (Zpos my) ey < scaled (q + 1) e' * scaled (Zpos my) ey).
  { unfold scaled in *.
    revert P Ps Pe Py Px Hle Hpos Hrem.
    generalize (2 ^ s) (2 ^ (e' + 2200)) (2 ^ (ey + 2200)) (2 ^ (ex + 2200)) (2 ^ 2200)
               (2 ^ (eu + 2200)).
    intros a b c d t u P Ps Pe Py Px Hle Hpos Hrem.
    assert (E1 : Zpos mx * d * t = Zpos mx * a * (b * c)).
    { replace (Zpos mx * d * t) with (Zpos mx * (d * t)) by ring. rewrite <- P. ring. }
    assert (E2 : (q + 1) * b * (Zpos my * c) = (q + 1) * Zpos my * (b * c)) by ring.
    rewrite E2. rewrite E1 in Hle.
    assert (Pbc : 0 < b * c) by nia.
    eapply Z.le_lt_trans; [exact Hle|]. apply Z.mul_lt_mono_pos_r; lia. }
  apply Z.mul_lt_mono_pos_r in K; [|exact Hpos].
  exact (binary_round_aux_floor false q e' lz Hq He' Hg mu eu Cu Hmu K).
Qed.

(** A binary64 number has one mantissa and one exponent. *)
Lemma canon_unique (m m' : positive) (e e' : Z) :
  canon (Zpos m) e -> canon (Zpos m') e' ->
  scaled (Zpos m) e = scaled (Zpos m') e' -> m = m' /\ e = e'.
Proof.
  intros C C' H.
  assert (E : e = e').
  { pose proof (canon_exp_le _ _ _ _ C C' ltac:(lia) ltac:(lia)).
    pose proof (canon_exp_le _ _ _ _ C' C ltac:(lia) ltac:(lia)). lia. }
  subst e'. split; [|reflexivity].
  destruct C as (_ & He & _).
  pose proof (scaled_le_inv (Zpos m) (Zpos m') e ltac:(lia) ltac:(lia)).
  pose proof (scaled_le_inv (Zpos m') (Zpos m) e ltac:(lia) ltac:(lia)).
  assert (Zpos m = Zpos m') by lia. congruence.
Qed.

(** Dividing by 1 changes nothing. *)
Lemma div_one (x : float64) : finite_nonneg x -> div x one = x.
Proof.
  intros Hx. destruct (of_int_val 1 ltac:(lia)) as [F1 V1].
  change (binary_normalize 53 1024 1 0 false) with one in F1, V1.
  pose proof (pow2_pos 2200 ltac:(lia)) as PT.
  destruct x as [s| | |s m e]; cbn [finite_nonneg] in Hx; try contradiction.
  - destruct s; reflexivity.
  - destruct s; [contradiction|]. destruct Hx as [C He].
    assert (R : representable (val (S754_finite false m e))).
    { exists (Zpos m), e. cbn [val]. auto. }
    assert (Vpos : 0 < val (S754_finite false m e)).
    { cbn [val]. unfold scaled. destruct C as (_ & ? & _).
      pose proof (pow2_pos (e + 2200) ltac:(lia)). nia. }
    destruct (SFdiv_upper (S754_finite false m e) one _ (conj C He) F1 ltac:(lia) R) as [Fu Bu].
    { rewrite V1. lia. }
    destruct (SFdiv_lower (S754_finite false m e) one _ (conj C He) F1 ltac:(lia) R Vpos)
      as [E|(m' & e' & E & C' & B')].
    { rewrite V1. lia. }
    + unfold div, prec, emax in *. rewrite E in Fu. contradiction.
    + unfold div, prec, emax in *. rewrite E in Bu |- *. cbn [val] in Bu, B'.
      destruct (canon_unique m' m e' e C' C ltac:(lia)) as [-> ->]. reflexivity.
Qed.

(** The update of a record with no job done. *)
Lemma new_rating_first (r v : float64) :
  finite r = true -> finite_nonneg v ->
  new_rating r 0 v = v \/
  exists s s', v = S754_zero s /\ new_rating r 0 v = S754_zero s'.
Proof.
  intros Hr Hv. unfold new_rating.
  assert (E1 : add (of_int 0) one = one) by (vm_compute; reflexivity).
  rewrite E1.
  assert (E2 : exists s, mul r (of_int 0) = S754_zero s).
  { destruct r as [s| | |s m e]; try discriminate; cbn; eauto. }
  destruct E2 as [s ->].
  destruct v as [s'| | |s' m e]; cbn [finite_nonneg] in Hv; try contradiction.
  - right. exists s', (if Bool.eqb s s' then s else false). split; [reflexivity|].
    destruct s, s'; reflexivity.
  - left. destruct s'; [contradiction|].
    change (add (S754_zero s) (S754_finite false m e)) with (S754_finite false m e).
    apply div_one. exact Hv.
Qed.

(** X18: an accepted review of a record with no job done, whose rating
    is a number, replaces the rating by the reviewed value (a zero of
    either sign for a review of zero) and sets the job count to 1. *)
Theorem first_review_sets_rating
    (id : Z) (v : float64) (l1 l2 : list mover) (m : mover) :
  Forall (fun x => ID x <> id) l1 -> ID m = id ->
  JobsAmount m = 0 -> finite (Rating m) = true -> in_range v ->
  exists r',
    recommendMover (review id v) (l1 ++ m :: l2) =
      ([(StatusOK, JMover (Build_mover (ID m) (Name m) r' (TelephoneNumber m) 1))],
       l1 ++ Build_mover (ID m) (Name m) r' (TelephoneNumber m) 1 :: l2) /\
    (r' = v \/ exists s s', v = S754_zero s /\ r' = S754_zero s').
Proof.
  intros Hall Hm Hj Hr (Vv & V0 & V5).
  destruct (in_range_finite_nonneg v Vv V0 V5) as [Fv _].
  exists (new_rating (Rating m) 0 v). split; [|now apply new_rating_first].
  rewrite (recommendMover_found (review id v) id l1 l2 m eq_refl Hall Hm).
  cbn [review Body Rating]. unfold geb. fold (leb zero v). rewrite V0, V5, Hj.
  reflexivity.
Qed.

Lemma first_review_sets_rating_example :
  exists r',
    recommendMover (review 7 (of_int 5)) ([] ++ example_mover (of_int 4) 0 :: []) =
      ([(StatusOK, JMover (Build_mover 7 "All Star Moving" r' "+13125587612" 1))],
       [] ++ Build_mover 7 "All Star Moving" r' "+13125587612" 1 :: []) /\
    (r' = of_int 5 \/ exists s s', of_int 5 = S754_zero s /\ r' = S754_zero s').
Proof.
  apply (first_review_sets_rating 7 (of_int 5) [] [] (example_mover (of_int 4) 0)).
  - constructor.
  - reflexivity.
  - reflexivity.
  - reflexivity.
  - split; [|split]; vm_compute; reflexivity.
Defined.

(** ** What MarshalJSON writes *)

Lemma Round_small (p : float64) (K : Z) :
  finite_nonneg p -> 0 <= K < 2 ^ 52 -> val p <= K * 2 ^ 2200 ->
  exists k, 0 <= k <= K /\
    (Round p = of_int k \/ (k = 0 /\ exists s, Round p = S754_zero s)).
Proof.
  destruct p as [s| | |s m e]; cbn [finite_nonneg]; try contradiction.
  - intros _ HK _. exists 0. split; [lia|]. right. split; [reflexivity|]. now exists s.
  - destruct s; [contradiction|]. intros [(Hm & He & Hc) He'] HK Hv.
    cbn [val] in Hv. unfold scaled in Hv. unfold Round.
    destruct (0 <=? e) eqn:E0.
    + exfalso. apply Z.leb_le in E0.
      destruct Hc as [Hc|Hc]; [lia|].
      assert (P : 2 ^ (e + 2200) = 2 ^ e * 2 ^ 2200) by (apply Z.pow_add_r; lia).
      assert (P1 : 0 < 2 ^ e) by (apply Z.pow_pos_nonneg; lia).
      assert (P2 : 0 < 2 ^ 2200) by (apply Z.pow_pos_nonneg; lia).
      rewrite P in Hv. revert Hv P1 P2 Hc HK.
      generalize (2 ^ e) (2 ^ 2200) (2 ^ 52) (Z.pos m). intros a b c d Hv P1 P2 Hc HK.
      assert (H1 : d <= d * a) by nia.
      assert (H2 : d * a <= K) by (apply (Z.mul_le_mono_pos_r _ _ b); lia).
      lia.
    + apply Z.leb_gt in E0. cbv zeta.
      assert (P : 2 ^ 2200 = 2 ^ (- e) * 2 ^ (e + 2200)).
      { rewrite <- Z.pow_add_r by lia. f_equal. lia. }
      assert (Q : 2 ^ (1 - e) = 2 * 2 ^ (- e)).
      { replace (1 - e) with (1 + - e) by lia. rewrite Z.pow_add_r by lia. reflexivity. }
      assert (P1 : 0 < 2 ^ (- e)) by (apply Z.pow_pos_nonneg; lia).
      assert (P2 : 0 < 2 ^ (e + 2200)) by (apply Z.pow_pos_nonneg; lia).
      rewrite Q. rewrite P in Hv. revert Hv P1 P2.
      generalize (2 ^ (- e)) (2 ^ (e + 2200)). intros D S Hv P1 P2.
      assert (Hmk : Z.pos m <= K * D) by nia.
      set (q := (2 * Z.pos m + D) / (2 * D)).
      assert (Hq0 : 0 <= q) by (apply Z.div_pos; lia).
      assert (HqK : q < K + 1) by (apply Z.div_lt_upper_bound; nia).
      destruct (q =? 0) eqn:Eq.
      * exists 0. split; [lia|]. right. split; [reflexivity|]. now exists false.
      * exists q. split; [lia|]. left. reflexivity.
Qed.

Lemma tenths (k : Z) :
  0 <= k <= 50 ->
  leb zero (literal k 10) = true /\ leb (literal k 10) five = true /\
  div (Round (mul (literal k 10) ten)) ten = literal k 10.
Proof.
  intros Hk.
  assert (I : In k (map Z.of_nat (seq 0 51))).
  { apply in_map_iff. exists (Z.to_nat k). split; [lia|apply in_seq; lia]. }
  vm_compute in I.
  repeat (destruct I as [<- | I]; [repeat split; vm_compute; reflexivity|]).
  contradiction.
Qed.

(** X19: for a rating within 0.0 and 5.0 [MarshalJSON] writes one of the
    51 numbers 0.0, 0.1, ..., 5.0 (or -0.0), again within 0.0 and 5.0, and
    marshalling the written record writes it unchanged. *)
Theorem MarshalJSON_one_decimal (m : mover) :
  in_range (Rating m) ->
  exists k, 0 <= k <= 50 /\
    (Rating (MarshalJSON m) = literal k 10 \/
     (k = 0 /\ Rating (MarshalJSON m) = S754_zero true)) /\
    leb zero (Rating (MarshalJSON m)) = true /\
    leb (Rating (MarshalJSON m)) five = true /\
    MarshalJSON (MarshalJSON m) = MarshalJSON m.
Proof.
  intros (V & R0 & R5).
  destruct (in_range_finite_nonneg _ V R0 R5) as [F B].
  destruct (of_int_val 10 ltac:(lia)) as [F10 V10].
  assert (R50 : representable (50 * 2 ^ 2200)) by (apply representable_int; lia).
  destruct (SFmul_upper (Rating m) ten (50 * 2 ^ 2200) F F10 R50) as [Fp Bp].
  { unfold ten, of_int, prec, emax. rewrite V10.
    assert (0 < 2 ^ 2200) by (apply Z.pow_pos_nonneg; lia). nia. }
  destruct (Round_small _ 50 Fp ltac:(lia) Bp) as (k & Hk & [E|[-> [s E]]]).
  - exists k. split; [exact Hk|]. unfold MarshalJSON. destruct m as [i n r t j].
    cbn [set_Rating Rating] in *.
    change (SFmul 53 1024 r ten) with (mul r ten) in *. rewrite E.
    change (div (of_int k) ten) with (literal k 10).
    destruct (tenths k Hk) as (T0 & T5 & TR).
    split; [now left|]. split; [exact T0|]. split; [exact T5|]. 
    rewrite TR. reflexivity.
  - exists 0. split; [lia|]. unfold MarshalJSON. destruct m as [i n r t j].
    cbn [set_Rating Rating] in *.
    change (SFmul 53 1024 r ten) with (mul r ten) in *. rewrite E.
    destruct s; [split; [right; split; reflexivity|repeat split; vm_compute; reflexivity]
                |split; [left; reflexivity|repeat split; vm_compute; reflexivity]].
Qed.

Lemma MarshalJSON_one_decimal_example :
  exists k, 0 <= k <= 50 /\
    (Rating (MarshalJSON (example_mover (new_rating (literal 46 10) 3780 (of_int 5)) 3781))
       = literal k 10 \/
     (k = 0 /\
      Rating (MarshalJSON (example_mover (new_rating (literal 46 10) 3780 (of_int 5)) 3781))
        = S754_zero true)) /\
    leb zero
      (Rating (MarshalJSON (example_mover (new_rating (literal 46 10) 3780 (of_int 5)) 3781)))
      = true /\
    leb (Rating (MarshalJSON (example_mover (new_rating (literal 46 10) 3780 (of_int 5)) 3781)))
        five = true /\
    MarshalJSON
      (MarshalJSON (example_mover (new_rating (literal 46 10) 3780 (of_int 5)) 3781))
      = MarshalJSON (example_mover (new_rating (literal 46 10) 3780 (of_int 5)) 3781).
Proof.
  apply (MarshalJSON_one_decimal
           (example_mover (new_rating (literal 46 10) 3780 (of_int 5)) 3781)).
  split; [|split]; vm_compute; reflexivity.
Defined.

(** ** Every rating of the store *)

Lemma rated_mono (K K' : Z) (movers : list mover) :
  K <= K' -> Forall (rated K) movers -> Forall (rated K') movers.
Proof.
  intros HK. apply Forall_impl. intros m [Hr Hj]. split; [exact Hr|lia].
Qed.

Lemma movers0_rated : Forall (rated 3780) movers0.
Proof.
  assert (A : forallb (fun m => valid_binary prec emax (Rating m)
                                && leb zero (Rating m) && leb (Rating m) five
                                && (0 <=? JobsAmount m) && (JobsAmount m <=? 3780))
                      movers0 = true) by (vm_compute; reflexivity).
  rewrite forallb_forall in A. apply Forall_forall. intros m Hm.
  specialize (A m Hm). rewrite !andb_true_iff, !Z.leb_le in A.
  unfold rated, in_range, is_float64. tauto.
Qed.

Lemma initializeRouter_rated (J K : Z) (r : route) (context : Context) (movers : list mover) :
  sane J (r, context) -> J <= K -> 5 * (K + 1) < 2 ^ 53 ->
  Forall (rated K) movers ->
  Forall (rated (K + 1)) (snd (initializeRouter r context movers)).
Proof.
  intros Hs HJ HK Hinv. unfold sane in Hs. cbn [fst snd] in Hs.
  assert (Hup : Forall (rated (K + 1)) movers) by (apply (rated_mono K); [lia|exact Hinv]).
  destruct r; cbn [initializeRouter].
  - now rewrite getMovers_store.
  - destruct (addMover_cases context movers) as [->|(n & Hb & _ & _ & ->)]; [exact Hup|].
    cbn [snd]. rewrite Hb in Hs. destruct Hs as [_ Hs]. destruct (Hs eq_refl) as [Hr Hj].
    apply Forall_app. split; [exact Hup|]. constructor; [|constructor].
    split; [exact Hr|lia].
  - destruct (deleteMover_cases context movers) as [->|(id & l1 & m & l2 & _ & -> & _ & _ & ->)];
      [exact Hup|].
    cbn [snd]. apply Forall_app in Hup. destruct Hup as [H1 H2].
    apply Forall_app. split; [exact H1|]. now inversion H2.
  - destruct (ParamId context) as [id|] eqn:Hid.
    2:{ unfold recommendMover, extractId. now rewrite Hid. }
    destruct (findMoverIndexById id movers) as [i|] eqn:E.
    2:{ unfold recommendMover, extractId, getMoverById. now rewrite Hid, E. }
    destruct (findMoverIndexById_Some id movers i E) as (l1 & m & l2 & -> & _ & Hm & Hall).
    rewrite (recommendMover_found context id l1 l2 m Hid Hall Hm).
    destruct (Body context) as [u|] eqn:Hbody; [|exact Hup].
    destruct (geb (Rating u) zero && leb (Rating u) five) eqn:Hrange; [|exact Hup].
    cbv zeta. cbn [snd]. destruct Hs as [Vu _].
    apply andb_prop in Hrange. destruct Hrange as [U0 U5]. unfold geb in U0. fold (leb zero (Rating u)) in U0.
    apply Forall_app in Hinv. destruct Hinv as [H1 H2].
    apply Forall_app in Hup. destruct Hup as [H1' H2'].
    inversion H2 as [|? ? [(Vr & R0 & R5) Hj] _]. subst.
    apply Forall_app. split; [exact H1'|]. constructor; [|now inversion H2'].
    assert (Ej : int_add (JobsAmount m) 1 = JobsAmount m + 1).
    { unfold int_add. apply wrap_int_id. unfold is_int, int_min, int_max. lia. }
    split; cbn [Rating JobsAmount]; [|lia].
    apply new_rating_in_range; auto; lia.
Qed.

Lemma serve_rated (J K : Z) (requests : list (route * Context)) (movers : list mover) :
  J <= K -> 5 * (K + Z.of_nat (List.length requests)) < 2 ^ 53 ->
  Forall (sane J) requests -> Forall (rated K) movers ->
  Forall (rated (K + Z.of_nat (List.length requests))) (serve requests movers).
Proof.
  intros HJ HK Hs. revert K movers HJ HK.
  induction Hs as [|[r context] rest Hr Hrest IH]; intros K movers HJ HK Hinv.
  - cbn [serve List.length Z.of_nat]. now rewrite Z.add_0_r.
  - cbn [serve]. cbn [List.length] in HK |- *. rewrite Nat2Z.inj_succ in HK |- *.
    replace (K + Z.succ (Z.of_nat (List.length rest)))
      with (K + 1 + Z.of_nat (List.length rest)) by lia.
    apply IH; [lia|lia|].
    apply (initializeRouter_rated J); auto; lia.
Qed.

(** X20: served from the initial database, requests that create only
    records with a rating within 0.0 and 5.0 and a job count between 0 and
    [J] leave every rating of the store within 0.0 and 5.0 and every job
    count between 0 and [J] plus the number of requests, as long as five
    times that bound is below 2^53. *)
Theorem serve_ratings_in_range (J : Z) (requests : list (route * Context)) :
  3780 <= J -> 5 * (J + Z.of_nat (List.length requests)) < 2 ^ 53 ->
  Forall (sane J) requests ->
  Forall (rated (J + Z.of_nat (List.length requests))) (serve requests movers0).
Proof.
  intros HJ HK Hs. apply (serve_rated J); auto; [lia|].
  apply (rated_mono 3780); [exact HJ|exact movers0_rated].
Qed.

Lemma serve_ratings_in_range_example :
  Forall (rated (3780 + Z.of_nat (List.length
                    [ (POST_movers, Build_Context None (Some fresh_mover));
                      (POST_movers_id_review, review 1 (of_int 5));
                      (DELETE_movers_id, Build_Context (Some 2) None);
                      (GET_movers, Build_Context None None) ]))) 
         (serve [ (POST_movers, Build_Context None (Some fresh_mover));
                  (POST_movers_id_review, review 1 (of_int 5));
                  (DELETE_movers_id, Build_Context (Some 2) None);
                  (GET_movers, Build_Context None None) ] movers0).
Proof.
  apply (serve_ratings_in_range 3780).
  - lia.
  - vm_compute. reflexivity.
  - constructor; [|constructor; [|constructor; [|constructor; [|constructor]]]].
    + split; [vm_compute; reflexivity|]. intros _.
      split; [split; [|split]; vm_compute; reflexivity|]. cbn [fresh_mover JobsAmount]. lia.
    + split; [vm_compute; reflexivity|]. intros H. discriminate H.
    + exact I.
    + exact I.
Defined.

(** ** A creation sent twice *)

(** X21: a creation request sent a second time is never answered 201
    and stores nothing: the store after the second request is the store
    after the first. *)
Theorem addMover_twice (context : Context) (movers : list mover) :
  snd (addMover context (snd (addMover context movers))) = snd (addMover context movers) /\
  forall p, fst (addMover context (snd (addMover context movers))) <> [(StatusCreated, p)].
Proof.
  unfold addMover. destruct (Body context) as [n|]; cbn [fst snd].
  2:{ split; [reflexivity|]. intros p H. discriminate H. }
  destruct (checkMoverExists n movers) eqn:E1; cbn [fst snd].
  { rewrite E1. cbn [fst snd]. split; [reflexivity|]. intros p H. discriminate H. }
  destruct (checkMoverTelNumber n movers) eqn:E2; cbn [fst snd].
  { rewrite E1, E2. cbn [fst snd]. split; [reflexivity|]. intros p H. discriminate H. }
  assert (E3 : checkMoverExists n (movers ++ [n]) = true).
  { apply checkMoverExists_true. apply Exists_app. right. apply Exists_cons_hd. now left. }
  rewrite E3. cbn [fst snd]. split; [reflexivity|]. intros p H. discriminate H.
Qed.

(** ** main.go's helpers in its handlers *)

Lemma MainGo_addMover_binds (context : Context) (movers : list mover) :
  MainGo.addMover context movers =
    match MainGoRoutes.BindJsonInvalidJsonError context with
    | (written, None) => (written, movers)
    | (written, Some newMover) =>
        (written ++ [(StatusCreated, JMover newMover)], movers ++ [newMover])
    end.
Proof.
  unfold MainGo.addMover, MainGoRoutes.BindJsonInvalidJsonError.
  destruct (Body context); reflexivity.
Qed.
